(** * seller.py: synchronising supplier stock and prices with the Ozon seller API

    A shallow embedding of [src/seller.py] and the properties of its record
    builders, its batch splitter, its price normaliser, its pagination loop
    and its top-level run.

    Conventions of the embedding.
    - A Python [str] is a [string] holding its UTF-8 bytes.  Every character
      the program inspects (['.'], ['0']..['9'], ['_'], signs, blanks) is
      ASCII, and no byte of a multi-byte UTF-8 sequence is an ASCII byte, so
      splitting on a period and deleting non-digits act on the bytes exactly
      as they act on the code points.
    - A cell of the spreadsheet is a [pyval]: [None], a [str] or an [int]
      (floating-point cells are outside the model).
    - A Python [list] that is mutated through an alias lives in a [heap] and
      is passed by location; lists that are only read are passed by value.
    - Network calls are answered by a [world]; every request is logged.
    - The [while True] loop of [get_offer_ids] runs on a budget of turns;
      [Diverge] is the outcome of a run that has used its budget up.
    - What [int()] makes of a [str] is the interpreter's business: which
      characters count as digits or blanks, and how long a literal may be,
      depend on its version.  The builtin is a component of the [world];
      nothing is assumed of it.  The concrete runs use [ascii_int].
    - The process environment is a component of the [world] too: [main]
      reads its two credentials from it before the [try] block.  They travel
      in the headers of the requests, which the log does not record.
    - The [async] entry points are plain sequential functions: nothing in
      them awaits. *)

From Stdlib Require Import ZArith String Ascii DecimalString DecimalNat List Lia.
From stdpp Require Import base option list strings gmap.
From Stdlib Require DecimalPos DecimalZ.

Local Open Scope string_scope.
Local Open Scope Z_scope.
Local Open Scope list_scope.

(** ** Python values and exceptions *)

Inductive pyval : Type :=
  | PyNone
  | PyStr (s : string)
  | PyInt (z : Z).

Inductive exn : Type :=
  | ReadTimeout
  | ConnectionError
  | HTTPError
  | ValueError
  | TypeError
  | AttributeError
  | EnvError.

(** [str(v)] *)
Definition str (v : pyval) : string :=
  match v with
  | PyNone => "None"
  | PyStr s => s
  | PyInt z => NilZero.string_of_int (Z.to_int z)
  end.

Definition is_digit (c : ascii) : bool :=
  let n := nat_of_ascii c in (Nat.leb 48 n && Nat.leb n 57)%bool.

(** The blanks [int()] skips around a literal: space, and TAB, LF, VT, FF, CR. *)
Definition is_space (c : ascii) : bool :=
  let n := nat_of_ascii c in (Nat.eqb n 32 || (Nat.leb 9 n && Nat.leb n 13))%bool.

Definition digit_value (c : ascii) : Z := Z.of_nat (nat_of_ascii c) - 48.

Fixpoint lstrip (s : string) : string :=
  match s with
  | String c s' => if is_space c then lstrip s' else s
  | EmptyString => EmptyString
  end.

Definition strip (s : string) : string :=
  String.rev (lstrip (String.rev (lstrip s))).

(** Decimal digits with single underscores between digits; [prev] tells
    whether the previous character was a digit. *)
Fixpoint digits_value (acc : Z) (prev : bool) (s : string) : option Z :=
  match s with
  | EmptyString => if prev then Some acc else None
  | String c s' =>
      if is_digit c then digits_value (10 * acc + digit_value c) true s'
      else if (Ascii.eqb c "_" && prev)%bool then digits_value acc false s'
      else None
  end.

(** How many digits a literal has, leading zeros included. *)
Fixpoint count_digits (s : string) : nat :=
  match s with
  | EmptyString => O
  | String c s' => ((if is_digit c then 1 else 0) + count_digits s')%nat
  end.

(** What CPython 3.11 makes of [int(s)] for a string of ASCII characters,
    base 10: blanks around, a sign, digits with single underscores between
    them, at most 4300 digits.  The interpreter also reads decimal digits and
    blanks outside ASCII; [ascii_int] refuses them, so it stands for the
    builtin on ASCII strings only.  It is the builtin of the concrete worlds
    below, whose inventories hold ASCII quantities; the general statements
    quantify over the builtin of the world and do not mention it. *)
Definition ascii_int (s : string) : exn + Z :=
  let literal := strip s in
  if Nat.ltb 4300 (count_digits literal) then inl ValueError
  else
    match
      match literal with
      | String "+" d => digits_value 0 false d
      | String "-" d => option_map Z.opp (digits_value 0 false d)
      | d => digits_value 0 false d
      end
    with
    | Some z => inr z
    | None => inl ValueError
    end.

(** ** The price normaliser *)

(** [s.split(sep)] for a one-character separator: never an empty list. *)
Fixpoint split (sep : ascii) (s : string) : list string :=
  match s with
  | EmptyString => [EmptyString]
  | String c s' =>
      if Ascii.eqb c sep then EmptyString :: split sep s'
      else
        match split sep s' with
        | piece :: pieces => String c piece :: pieces
        | [] => [String c EmptyString]
        end
  end.

(** [re.sub("[^0-9]", "", s)]: every character outside the class ['0'-'9']
    is replaced by the empty string. *)
Fixpoint re_sub_non_digits (s : string) : string :=
  match s with
  | EmptyString => EmptyString
  | String c s' =>
      if is_digit c then String c (re_sub_non_digits s') else re_sub_non_digits s'
  end.

(** [price.split(".")[0]]; the index is always in range. *)
Definition price_conversion (price : string) : string :=
  re_sub_non_digits (hd EmptyString (split "." price)).

(** [price_conversion] applied to a cell: a value without a [split] method
    raises [AttributeError]. *)
Definition price_conversion_val (price : pyval) : exn + string :=
  match price with
  | PyStr s => inr (price_conversion s)
  | PyNone | PyInt _ => inl AttributeError
  end.

(** ** The batch splitter *)

(** [list(range(0, stop, step))] for [stop >= 0]: [ValueError] when the step
    is zero, empty when it is negative. *)
Definition range0 (stop : nat) (step : Z) : exn + list nat :=
  if step =? 0 then inl ValueError
  else if step <? 0 then inr []
  else
    let n := Z.to_nat step in
    inr (map (fun k => (k * n)%nat) (seq 0 ((stop + n - 1) / n)%nat)).

(** Clamp a slice bound the way Python does. *)
Definition slice_bound (len : nat) (k : Z) : nat :=
  if k <? 0 then Z.to_nat (Z.max 0 (k + Z.of_nat len))
  else Nat.min (Z.to_nat k) len.

(** [lst[lo:hi]] *)
Definition slice {A} (lst : list A) (lo hi : Z) : list A :=
  let lo' := slice_bound (length lst) lo in
  let hi' := slice_bound (length lst) hi in
  firstn (hi' - lo') (skipn lo' lst).

(** [list(divide(lst, n))]: the generator drained by its only consumers. *)
Definition divide {A} (lst : list A) (n : Z) : exn + list (list A) :=
  match range0 (length lst) n with
  | inl e => inl e
  | inr starts => inr (map (fun i => slice lst (Z.of_nat i) (Z.of_nat i + n)) starts)
  end.

(** ** Records exchanged with the marketplace *)

(** An inventory row: the [dict] pandas builds for one spreadsheet line. *)
Abbreviation watch := (gmap string pyval).

(** [watch.get(key)] *)
Definition get (w : watch) (key : string) : pyval := default PyNone (w !! key).

Record StockRec : Type := { offer_id : string; stock : Z }.

Record PriceRec : Type := {
  auto_action_enabled : string;
  currency_code : string;
  price_offer_id : string;
  old_price : string;
  price : string
}.

(** One page of [/v2/product/list]: the ["result"] object. *)
Record product : Type := { product_offer_id : string }.

Record page : Type := {
  result_items : list product;
  result_total : Z;
  result_last_id : string
}.

Inductive request : Type :=
  | ListProducts (cursor : string)
  | ImportPrices (prices : list PriceRec)
  | ImportStocks (stocks : list StockRec).

Inductive message : Type :=
  | MsgTimeout
  | MsgConnection (e : exn)
  | MsgError (e : exn).

(** ** State, heap and the monad of the program *)

Definition loc := nat.

Record state : Type := {
  heap : list (list string);   (* the mutable lists of identifiers *)
  sent : list request;         (* requests posted so far, oldest first *)
  listed : nat;                (* how many listing requests were answered or refused *)
  stdout : list message
}.

Definition initial : state :=
  {| heap := []; sent := []; listed := 0%nat; stdout := [] |}.

Inductive outcome (A : Type) : Type :=
  | Ok (a : A)
  | Raise (e : exn)
  | Diverge.   (* the loop budget ran out: the program is still running *)
Arguments Ok {A} a.
Arguments Raise {A} e.
Arguments Diverge {A}.

Definition M (A : Type) : Type := state -> outcome A * state.

Definition ret {A} (a : A) : M A := fun s => (Ok a, s).

Definition bind {A B} (m : M A) (k : A -> M B) : M B :=
  fun s =>
    match m s with
    | (Ok a, s') => k a s'
    | (Raise e, s') => (Raise e, s')
    | (Diverge, s') => (Diverge, s')
    end.

Definition raise {A} (e : exn) : M A := fun s => (Raise e, s).

Definition lift {A} (r : exn + A) : M A :=
  match r with
  | inl e => raise e
  | inr a => ret a
  end.

(** [try: m except ...: handler]; a run that never ends is not caught. *)
Definition try_except {A} (m : M A) (handler : exn -> M A) : M A :=
  fun s =>
    match m s with
    | (Raise e, s') => handler e s'
    | r => r
    end.

Notation "'let*' x ':=' m 'in' k" := (bind m (fun x => k))
  (at level 10, x name, m at level 100, k at level 200).

(** A new list object. *)
Definition alloc (l : list string) : M loc :=
  fun s =>
    (Ok (length (heap s)),
     {| heap := heap s ++ [l]; sent := sent s; listed := listed s; stdout := stdout s |}).

Definition deref (r : loc) : M (list string) :=
  fun s => (Ok (default [] (heap s !! r)), s).

(** The state in which the list object at [r] holds [l]. *)
Definition set_list (r : loc) (l : list string) (s : state) : state :=
  {| heap := <[r := l]> (heap s); sent := sent s; listed := listed s; stdout := stdout s |}.

Definition assign (r : loc) (l : list string) : M () :=
  fun s => (Ok (), set_list r l s).

Definition log (q : request) : M () :=
  fun s =>
    (Ok (),
     {| heap := heap s; sent := sent s ++ [q]; listed := listed s; stdout := stdout s |}).

Definition print (m : message) : M () :=
  fun s =>
    (Ok (),
     {| heap := heap s; sent := sent s; listed := listed s; stdout := stdout s ++ [m] |}).

(** A [for] loop threading a local accumulator. *)
Fixpoint for_each {A B} (l : list A) (body : B -> A -> M B) (acc : B) : M B :=
  match l with
  | [] => ret acc
  | x :: l' => let* acc' := body acc x in for_each l' body acc'
  end.

(** [x in lst] *)
Definition py_in (x : string) (lst : list string) : bool :=
  existsb (String.eqb x) lst.

(** The list without the first occurrence of [x], if there is one. *)
Fixpoint remove_first (x : string) (lst : list string) : option (list string) :=
  match lst with
  | [] => None
  | y :: lst' =>
      if String.eqb y x then Some lst'
      else option_map (cons y) (remove_first x lst')
  end.

(** [lst.remove(x)] on the list object at [r]. *)
Definition list_remove (r : loc) (x : string) : M () :=
  let* lst := deref r in
  match remove_first x lst with
  | Some lst' => assign r lst'
  | None => raise ValueError
  end.

(** ** The marketplace client and the inventory fetcher *)

(** What a run depends on besides its code: the interpreter's [int] on a
    [str], the process environment, and what the outside answers, that is the
    [k]-th listing request (counted from 0), the two import endpoints, and the
    supplier's download.  The cursor of a listing request is a function of the
    earlier answers, so a sequence of answers describes every server the loop
    can meet. *)
Record world : Type := {
  builtin_int : string -> exn + Z;
  environ : string -> option string;
  product_list_api : nat -> exn + page;
  import_api : request -> exn + ();
  download_api : exn + list watch
}.

Section Program.

Variable W : world.

(** [int(v)]: [None] is a [TypeError], an [int] is itself, a [str] is for the
    builtin to read. *)
Definition int (v : pyval) : exn + Z :=
  match v with
  | PyNone => inl TypeError
  | PyInt z => inr z
  | PyStr s => builtin_int W s
  end.

(** [env.str(name)] without a default: a variable that is not set raises. *)
Definition env_str (name : string) : M string :=
  match environ W name with
  | Some value => ret value
  | None => raise EnvError
  end.

(** [get_product_list]: posts the cursor and returns the ["result"] object. *)
Definition get_product_list (last_id : string) : M page :=
  let* _ := log (ListProducts last_id) in
  fun s =>
    lift (product_list_api W (listed s))
      {| heap := heap s; sent := sent s; listed := S (listed s); stdout := stdout s |}.

(** The [while True] loop of [get_offer_ids], run for at most [fuel] turns. *)
Fixpoint get_offer_ids_loop (fuel : nat) (last_id : string) (product_list : list product)
  : M (list product) :=
  match fuel with
  | O => fun s => (Diverge, s)
  | S fuel' =>
      let* some_prod := get_product_list last_id in
      let product_list := product_list ++ result_items some_prod in
      if result_total some_prod =? Z.of_nat (length product_list) then ret product_list
      else get_offer_ids_loop fuel' (result_last_id some_prod) product_list
  end.

Definition get_offer_ids (fuel : nat) : M loc :=
  let* product_list := get_offer_ids_loop fuel "" [] in
  let* offer_ids := alloc [] in
  let* _ :=
    for_each product_list
      (fun _ product =>
         let* ids := deref offer_ids in
         assign offer_ids (ids ++ [product_offer_id product])) () in
  ret offer_ids.

Definition update_price (prices : list PriceRec) : M () :=
  let* _ := log (ImportPrices prices) in
  lift (import_api W (ImportPrices prices)).

Definition update_stocks (stocks : list StockRec) : M () :=
  let* _ := log (ImportStocks stocks) in
  lift (import_api W (ImportStocks stocks)).

Definition download_stock : M (list watch) := lift (download_api W).

(** ** The record builders *)

(** One turn of the first loop of [create_stocks]. *)
Definition create_stocks_row (offer_ids : loc) (stocks : list StockRec) (watch : watch)
  : M (list StockRec) :=
  let* ids := deref offer_ids in
  if py_in (str (get watch "Код")) ids then
    let count := str (get watch "Количество") in
    let* stock :=
      if String.eqb count ">10" then ret 100
      else if String.eqb count "1" then ret 0
      else lift (int (get watch "Количество")) in
    let stocks := stocks ++ [{| offer_id := str (get watch "Код"); stock := stock |}] in
    let* _ := list_remove offer_ids (str (get watch "Код")) in
    ret stocks
  else ret stocks.

Definition create_stocks (watch_remnants : list watch) (offer_ids : loc) : M (list StockRec) :=
  let* stocks := for_each watch_remnants (create_stocks_row offer_ids) [] in
  let* ids := deref offer_ids in
  for_each ids
    (fun stocks offer_id => ret (stocks ++ [{| offer_id := offer_id; stock := 0 |}])) stocks.

(** One turn of the loop of [create_prices]. *)
Definition create_prices_row (offer_ids : loc) (prices : list PriceRec) (watch : watch)
  : M (list PriceRec) :=
  let* ids := deref offer_ids in
  if py_in (str (get watch "Код")) ids then
    let* p := lift (price_conversion_val (get watch "Цена")) in
    let price :=
      {| auto_action_enabled := "UNKNOWN";
         currency_code := "RUB";
         price_offer_id := str (get watch "Код");
         old_price := "0";
         price := p |} in
    ret (prices ++ [price])
  else ret prices.

Definition create_prices (watch_remnants : list watch) (offer_ids : loc) : M (list PriceRec) :=
  for_each watch_remnants (create_prices_row offer_ids) [].

(** ** The entry points *)

Definition upload_prices (fuel : nat) (watch_remnants : list watch) : M (list PriceRec) :=
  let* offer_ids := get_offer_ids fuel in
  let* prices := create_prices watch_remnants offer_ids in
  let* chunks := lift (divide prices 1000) in
  let* _ := for_each chunks (fun _ some_price => update_price some_price) () in
  ret prices.

Definition upload_stocks (fuel : nat) (watch_remnants : list watch)
  : M (list StockRec * list StockRec) :=
  let* offer_ids := get_offer_ids fuel in
  let* stocks := create_stocks watch_remnants offer_ids in
  let* chunks := lift (divide stocks 100) in
  let* _ := for_each chunks (fun _ some_stock => update_stocks some_stock) () in
  let not_empty := List.filter (fun r => negb (stock r =? 0)) stocks in
  ret (not_empty, stocks).

(** The body of the [try] block of [main]. *)
Definition main_try (fuel : nat) : M () :=
  let* offer_ids := get_offer_ids fuel in
  let* watch_remnants := download_stock in
  let* stocks := create_stocks watch_remnants offer_ids in
  let* chunks := lift (divide stocks 100) in
  let* _ := for_each chunks (fun _ some_stock => update_stocks some_stock) () in
  let* prices := create_prices watch_remnants offer_ids in
  let* chunks := lift (divide prices 900) in
  for_each chunks (fun _ some_price => update_price some_price) ().

Definition main (fuel : nat) : M () :=
  let* seller_token := env_str "SELLER_TOKEN" in
  let* client_id := env_str "CLIENT_ID" in
  try_except (main_try fuel)
    (fun error =>
       match error with
       | ReadTimeout => print MsgTimeout
       | ConnectionError => print (MsgConnection error)
       | _ => print (MsgError error)
       end).

End Program.

(** ** Vocabulary of the statements *)

(** The identifier and the quantity cell of an inventory row. *)
Definition code (w : watch) : string := str (get w "Код").
Definition quantity (w : watch) : pyval := get w "Количество".
Definition codes (wr : list watch) : list string := map code wr.

Definition zero_stock (id : string) : StockRec := {| offer_id := id; stock := 0 |}.

(** The quantity-resolution policy of the data model; what a literal
    integer is, the builtin of the world says. *)
Definition quantity_policy (W : world) (q : pyval) (z : Z) : Prop :=
  (str q = ">10" /\ z = 100) \/
  (str q = "1" /\ z = 0) \/
  (str q <> ">10" /\ str q <> "1" /\ int W q = inr z).

(** The first loop of [create_stocks] as a relation: from the inventory and
    the identifier list to the rows that matched, their records, and the
    identifiers left over. *)
Inductive stock_pass (W : world) : list watch -> list string ->
                       list watch -> list StockRec -> list string -> Prop :=
  | pass_done ids : stock_pass W [] ids [] [] ids
  | pass_skip w wr ids matched derived ids' :
      code w ∉ ids ->
      stock_pass W wr ids matched derived ids' ->
      stock_pass W (w :: wr) ids matched derived ids'
  | pass_take w wr ids ids1 z matched derived ids' :
      code w ∈ ids ->
      remove_first (code w) ids = Some ids1 ->
      quantity_policy W (quantity w) z ->
      stock_pass W wr ids1 matched derived ids' ->
      stock_pass W (w :: wr) ids
        (w :: matched) ({| offer_id := code w; stock := z |} :: derived) ids'.

(** The quantity resolution of [create_stocks_row] on its own. *)
Definition resolve_quantity (W : world) (q : pyval) : exn + Z :=
  if String.eqb (str q) ">10" then inr 100
  else if String.eqb (str q) "1" then inr 0
  else int W q.

(** The price record [create_prices_row] builds for a row whose price
    normalises to [p]. *)
Definition price_record (w : watch) (p : string) : PriceRec :=
  {| auto_action_enabled := "UNKNOWN";
     currency_code := "RUB";
     price_offer_id := code w;
     old_price := "0";
     price := p |}.

(** A record that comes from a given inventory row. *)
Definition priced_from (w : watch) (r : PriceRec) : Prop :=
  exists p, price_conversion_val (get w "Цена") = inr p /\ r = price_record w p.

(** The normaliser as the specification words it: the characters before the
    first period, without those that are not ASCII digits. *)
Definition ascii_digits : list ascii := list_ascii_of_string "0123456789".

Fixpoint before_first (sep : ascii) (cs : list ascii) : list ascii :=
  match cs with
  | [] => []
  | c :: cs' => if decide (c = sep) then [] else c :: before_first sep cs'
  end.

Definition spec_price_normalizer (p : string) : string :=
  string_of_list_ascii
    (filter (fun c => c ∈ ascii_digits) (before_first "." (list_ascii_of_string p))).

(** The items gathered by the first [k] answered listing requests. *)
Fixpoint accumulated (W : world) (k : nat) : list product :=
  match k with
  | O => []
  | S k' =>
      accumulated W k' ++
      match product_list_api W k' with
      | inr p => result_items p
      | inl _ => []
      end
  end.

(** The [k]-th listing request is answered with a page. *)
Definition answered (W : world) (k : nat) : Prop :=
  exists p, product_list_api W k = inr p.

(** The [k]-th page reports a total equal to the number of items gathered
    up to and including it. *)
Definition settles (W : world) (k : nat) : Prop :=
  exists p, product_list_api W k = inr p /\
            result_total p = Z.of_nat (length (accumulated W (S k))).

(** What a logged request is and how many records it carries. *)
Inductive request_shape : Type :=
  | Listing
  | PriceBatch (n : nat)
  | StockBatch (n : nat).

Definition shape (q : request) : request_shape :=
  match q with
  | ListProducts _ => Listing
  | ImportPrices prices => PriceBatch (length prices)
  | ImportStocks stocks => StockBatch (length stocks)
  end.

Definition is_price_request (q : request) : bool :=
  match q with
  | ImportPrices _ => true
  | _ => false
  end.

(** ** Concrete inputs *)

Definition mk_watch (id qty cost : string) : watch :=
  <["Код" := PyStr id]> (<["Количество" := PyStr qty]> (<["Цена" := PyStr cost]> ∅)).

(** A state whose only list object, at location 0, is [ids]. *)
Definition holding (ids : list string) : state :=
  {| heap := [ids]; sent := []; listed := 0%nat; stdout := [] |}.

(** The decimal numeral of [k], used as an identifier. *)
Definition ident (k : nat) : string := NilZero.string_of_uint (Nat.to_uint k).

Definition products (from count : nat) : list product :=
  map (fun k => {| product_offer_id := ident k |}) (seq from count).

(** An environment in which both credentials are set. *)
Definition with_credentials (name : string) : option string :=
  if String.eqb name "SELLER_TOKEN" then Some "token"
  else if String.eqb name "CLIENT_ID" then Some "client"
  else None.

(** 1500 rows with the identifiers "0" .. "1499". *)
Definition inventory_1500 : list watch :=
  map (fun k => mk_watch (ident k) "5" "100.00 руб.") (seq 0 1500).

(** The marketplace knows exactly those 1500 identifiers and lists them in
    two pages (the page size is 1000); every request succeeds, and both
    credentials are set. *)
Definition world_1500 : world :=
  {| builtin_int := ascii_int;
     environ := with_credentials;
     product_list_api := fun k =>
       match k with
       | O => inr {| result_items := products 0 1000; result_total := 1500;
                     result_last_id := "page-1" |}
       | _ => inr {| result_items := products 1000 500; result_total := 1500;
                     result_last_id := "page-2" |}
       end;
     import_api := fun _ => inr ();
     download_api := inr inventory_1500 |}.

(** A small marketplace: three items listed in two pages. *)
Definition world_small : world :=
  {| builtin_int := ascii_int;
     environ := with_credentials;
     product_list_api := fun k =>
       match k with
       | O => inr {| result_items := products 0 2; result_total := 3;
                     result_last_id := "page-1" |}
       | _ => inr {| result_items := products 2 1; result_total := 3;
                     result_last_id := "page-2" |}
       end;
     import_api := fun _ => inr ();
     download_api := inr [mk_watch "0" ">10" "5'990.00 руб."; mk_watch "7" "2" "10.00"] |}.

(** A marketplace whose reported total is never reached. *)
Definition world_stuck : world :=
  {| builtin_int := ascii_int;
     environ := with_credentials;
     product_list_api := fun _ =>
       inr {| result_items := products 0 1; result_total := -1; result_last_id := "" |};
     import_api := fun _ => inr ();
     download_api := inr [] |}.

(** The batches of price records a log carries, oldest first. *)
Definition price_batches (log : list request) : list (list PriceRec) :=
  flat_map (fun q => match q with ImportPrices prices => [prices] | _ => [] end) log.

(** An inventory row with an identifier and a quantity only. *)
Definition stock_row (id qty : string) : watch :=
  <["Код" := PyStr id]> (<["Количество" := PyStr qty]> ∅).

(** The state [get_offer_ids] leaves behind in [world_small]. *)
Definition listed_small : state :=
  {| heap := [["0"; "1"; "2"]];
     sent := [ListProducts ""; ListProducts "page-1"];
     listed := 2%nat;
     stdout := [] |}.

(** Two inventory rows that carry the same identifier. *)
Definition duplicated_inventory : list watch :=
  [mk_watch "A" "1" "10.00"; mk_watch "A" "2" "20.00"].

(** ** Further vocabulary *)

(** The message the handler of [main] prints for an exception. *)
Definition message_of (e : exn) : message :=
  match e with
  | ReadTimeout => MsgTimeout
  | ConnectionError => MsgConnection e
  | _ => MsgError e
  end.

(** The cursors of the first [k + 1] listing requests: the empty string,
    then the ["last_id"] of each page in turn. *)
Definition cursors (W : world) (k : nat) : list string :=
  "" :: map (fun j => match product_list_api W j with
                      | inr p => result_last_id p
                      | inl _ => ""
                      end) (seq 0 k).

(** How many times a character occurs in a string. *)
Fixpoint occurrences (c : ascii) (s : string) : nat :=
  match s with
  | EmptyString => O
  | String c' s' => (if Ascii.eqb c' c then 1 else 0) + occurrences c s'
  end.

(** The ["last_id"] of the [j]-th answer (empty when the request is refused). *)
Definition answer_last_id (W : world) (j : nat) : string :=
  match product_list_api W j with
  | inr p => result_last_id p
  | inl _ => ""
  end.

(** The cursors of [n] consecutive listing requests, the first one carrying
    [last_id] and being request number [b]. *)
Definition cursors_from (W : world) (last_id : string) (b n : nat) : list string :=
  match n with
  | O => []
  | S n' => last_id :: map (answer_last_id W) (seq b n')
  end.

(** The state after the requests [log] have been posted. *)
Definition logged (log : list request) (s : state) : state :=
  {| heap := heap s; sent := sent s ++ log; listed := listed s; stdout := stdout s |}.

(** The state after the messages [out] have been printed. *)
Definition printed (out : list message) (s : state) : state :=
  {| heap := heap s; sent := sent s; listed := listed s; stdout := stdout s ++ out |}.

(** A computation that prints nothing. *)
Definition silent {A} (m : M A) : Prop :=
  forall s, stdout (snd (m s)) = stdout s.

(** Both credentials are set in the environment. *)
Definition credentials (W : world) : Prop :=
  is_Some (environ W "SELLER_TOKEN") /\ is_Some (environ W "CLIENT_ID").

(** The list without the first occurrence of [x]; the list itself when [x]
    does not occur. *)
Definition delete_first (x : string) (l : list string) : list string :=
  default l (remove_first x l).

(** The catalog identifiers left once every inventory row, in file order,
    has taken away the first remaining occurrence of its identifier. *)
Definition remaining_ids (wr : list watch) (ids : list string) : list string :=
  fold_left (fun ids w => delete_first (code w) ids) wr ids.

(** The inventory rows that find their identifier among the catalog
    identifiers which the rows before them have left. *)
Fixpoint matched_rows (wr : list watch) (ids : list string) : list watch :=
  match wr with
  | [] => []
  | w :: wr' =>
      if decide (code w ∈ ids) then w :: matched_rows wr' (delete_first (code w) ids)
      else matched_rows wr' ids
  end.

(** Some variants of [world_small]: a download that fails, import endpoints
    that refuse every request, a listing whose second request is refused. *)
Definition world_no_download : world :=
  {| builtin_int := ascii_int;
     environ := with_credentials;
     product_list_api := product_list_api world_small;
     import_api := import_api world_small;
     download_api := inl ConnectionError |}.

Definition world_refusing : world :=
  {| builtin_int := ascii_int;
     environ := with_credentials;
     product_list_api := product_list_api world_small;
     import_api := fun _ => inl ReadTimeout;
     download_api := download_api world_small |}.

Definition world_broken_listing : world :=
  {| builtin_int := ascii_int;
     environ := with_credentials;
     product_list_api := fun k =>
       match k with
       | O => inr {| result_items := products 0 2; result_total := 3;
                     result_last_id := "page-1" |}
       | _ => inl HTTPError
       end;
     import_api := fun _ => inr ();
     download_api := inr [] |}.

(** [world_small] without the second credential. *)
Definition world_no_credentials : world :=
  {| builtin_int := ascii_int;
     environ := fun name => if String.eqb name "SELLER_TOKEN" then Some "token" else None;
     product_list_api := product_list_api world_small;
     import_api := import_api world_small;
     download_api := download_api world_small |}.

(** ** Lists of identifiers *)

Lemma py_in_true (x : string) (l : list string) : py_in x l = true <-> x ∈ l.
Proof.
  unfold py_in. rewrite existsb_exists. split.
  - intros (y & Hy & Heq). apply String.eqb_eq in Heq. subst y.
    by apply list_elem_of_In.
  - intros Hx. exists x. split; [by apply list_elem_of_In | apply String.eqb_refl].
Qed.

Lemma py_in_false (x : string) (l : list string) : py_in x l = false <-> x ∉ l.
Proof.
  rewrite <- py_in_true. destruct (py_in x l); split; congruence.
Qed.

Lemma remove_first_elem (x : string) (l : list string) :
  x ∈ l -> exists l', remove_first x l = Some l'.
Proof.
  induction l as [|y l IH]; intros Hx; [by apply elem_of_nil in Hx|].
  simpl. destruct (String.eqb_spec y x) as [->|Hne]; [eauto|].
  apply elem_of_cons in Hx as [->|Hx]; [done|].
  destruct (IH Hx) as [l' ->]. simpl. eauto.
Qed.

Lemma remove_first_sublist (x : string) (l l' : list string) :
  remove_first x l = Some l' -> sublist l' l.
Proof.
  revert l'. induction l as [|y l IH]; intros l'; simpl; [done|].
  destruct (String.eqb_spec y x) as [->|Hne].
  - intros [= <-]. by apply sublist_cons.
  - destruct (remove_first x l) as [l1|]; simpl; [|done].
    intros [= <-]. apply sublist_skip. by apply IH.
Qed.

Lemma remove_first_other (x y : string) (l l' : list string) :
  remove_first x l = Some l' -> y <> x -> y ∈ l -> y ∈ l'.
Proof.
  revert l'. induction l as [|a l IH]; intros l'; simpl; [done|].
  destruct (String.eqb_spec a x) as [->|Hne].
  - intros [= <-] Hy Hin. apply elem_of_cons in Hin as [->|Hin]; done.
  - destruct (remove_first x l) as [l1|]; simpl; [|done].
    intros [= <-] Hy Hin. apply elem_of_cons in Hin as [->|Hin].
    + apply list_elem_of_here.
    + apply list_elem_of_further. by apply IH.
Qed.

Lemma filter_ne_absent (x : string) (l : list string) :
  x ∉ l -> filter (fun y => y <> x) l = l.
Proof.
  induction l as [|a l IH]; intros Hx; [done|].
  apply not_elem_of_cons in Hx as [Hne Hx].
  rewrite filter_cons_True by congruence. by rewrite IH.
Qed.

Lemma remove_first_NoDup (x : string) (l l' : list string) :
  NoDup l -> remove_first x l = Some l' -> l' = filter (fun y => y <> x) l.
Proof.
  revert l'. induction l as [|a l IH]; intros l' Hnd; simpl; [done|].
  apply NoDup_cons in Hnd as [Ha Hnd].
  destruct (String.eqb_spec a x) as [->|Hne].
  - intros [= <-]. rewrite filter_cons_False by (intros ?; done).
    by rewrite filter_ne_absent.
  - destruct (remove_first x l) as [l1|] eqn:Hl; simpl; [|done].
    intros [= <-]. rewrite filter_cons_True by done. f_equal. by apply IH.
Qed.

(** ** Running the monad *)

Lemma set_list_lookup (r : loc) (l : list string) (s : state) :
  (r < length (heap s))%nat -> heap (set_list r l s) !! r = Some l.
Proof. intros Hr. simpl. by apply list_lookup_insert_eq. Qed.

Lemma set_list_twice (r : loc) (l l' : list string) (s : state) :
  set_list r l (set_list r l' s) = set_list r l s.
Proof. unfold set_list. simpl. by rewrite list_insert_insert_eq. Qed.

Lemma set_list_same (r : loc) (l : list string) (s : state) :
  heap s !! r = Some l -> set_list r l s = s.
Proof. intros Hr. destruct s. unfold set_list. simpl in *. by rewrite list_insert_id. Qed.

Lemma resolve_quantity_policy (W : world) (q : pyval) (z : Z) :
  resolve_quantity W q = inr z <-> quantity_policy W q z.
Proof.
  unfold resolve_quantity, quantity_policy.
  destruct (String.eqb_spec (str q) ">10") as [H10|H10].
  { split; [intros [= <-]; auto|]. intros [[_ ->]|[[H1 _]|[H _]]]; congruence. }
  destruct (String.eqb_spec (str q) "1") as [H1|H1].
  { split; [intros [= <-]; auto|]. intros [[H _]|[[_ ->]|[_ [H _]]]]; congruence. }
  split; [auto|]. intros [[H _]|[[H _]|[_ [_ H]]]]; congruence.
Qed.

Lemma create_stocks_row_run (W : world) (l : loc) (acc : list StockRec) (w : watch)
    (s : state) (ids : list string) :
  heap s !! l = Some ids ->
  create_stocks_row W l acc w s =
    if py_in (code w) ids then
      match resolve_quantity W (quantity w) with
      | inl e => (Raise e, s)
      | inr z =>
          match remove_first (code w) ids with
          | Some ids1 =>
              (Ok (acc ++ [{| offer_id := code w; stock := z |}]), set_list l ids1 s)
          | None => (Raise ValueError, s)
          end
      end
    else (Ok acc, s).
Proof.
  intros Hl. unfold create_stocks_row, bind, deref, list_remove, bind, deref.
  rewrite Hl. simpl. fold (code w). fold (quantity w).
  destruct (py_in (code w) ids); [|done].
  unfold resolve_quantity.
  destruct (String.eqb (str (quantity w)) ">10").
  { simpl. rewrite Hl. simpl. by destruct (remove_first (code w) ids). }
  destruct (String.eqb (str (quantity w)) "1").
  { simpl. rewrite Hl. simpl. by destruct (remove_first (code w) ids). }
  destruct (int W (quantity w)) as [e|z]; simpl; [done|].
  rewrite Hl. simpl. by destruct (remove_first (code w) ids).
Qed.

Lemma create_stocks_rows_run (W : world) (l : loc) (wr : list watch) :
  forall (acc : list StockRec) (s : state) (ids : list string) stocks s',
    heap s !! l = Some ids ->
    for_each wr (create_stocks_row W l) acc s = (Ok stocks, s') ->
    exists matched derived leftover,
      stock_pass W wr ids matched derived leftover /\
      stocks = acc ++ derived /\
      s' = set_list l leftover s.
Proof.
  induction wr as [|w wr IH]; intros acc s ids stocks s' Hl; simpl.
  - intros [= <- <-]. exists [], [], ids.
    split; [constructor|]. by rewrite app_nil_r, set_list_same.
  - unfold bind at 1. rewrite (create_stocks_row_run W l acc w s ids Hl).
    destruct (py_in (code w) ids) eqn:Hin.
    + apply py_in_true in Hin.
      destruct (resolve_quantity W (quantity w)) as [e|z] eqn:Hq; [done|].
      destruct (remove_first (code w) ids) as [ids1|] eqn:Hrm; [|done].
      intros Hrun.
      apply (IH _ _ ids1) in Hrun as (matched & derived & leftover & Hp & -> & ->).
      2:{ apply set_list_lookup. by eapply lookup_lt_Some. }
      exists (w :: matched), ({| offer_id := code w; stock := z |} :: derived), leftover.
      split; [|split].
      * eapply pass_take; eauto. by apply resolve_quantity_policy.
      * by rewrite <- app_assoc.
      * apply set_list_twice.
    + apply py_in_false in Hin. intros Hrun.
      apply (IH _ _ ids) in Hrun as (matched & derived & leftover & Hp & -> & ->); [|done].
      exists matched, derived, leftover. split; [|done]. by constructor.
Qed.

(** ** The first loop of [create_stocks] *)

Lemma stock_pass_matched_sublist W wr ids matched derived leftover :
  stock_pass W wr ids matched derived leftover -> sublist matched wr.
Proof.
  induction 1; [constructor | by apply sublist_cons | by apply sublist_skip].
Qed.

Lemma stock_pass_derived W wr ids matched derived leftover :
  stock_pass W wr ids matched derived leftover ->
  Forall2 (fun w r => offer_id r = code w /\ quantity_policy W (quantity w) (stock r))
          matched derived.
Proof. induction 1; [constructor | done | by constructor]. Qed.

Lemma stock_pass_leftover_sublist W wr ids matched derived leftover :
  stock_pass W wr ids matched derived leftover -> sublist leftover ids.
Proof.
  induction 1; [done | done |].
  etrans; [eassumption|]. by eapply remove_first_sublist.
Qed.

Lemma stock_pass_keeps_unmatched W wr ids matched derived leftover (id : string) :
  stock_pass W wr ids matched derived leftover ->
  id ∈ ids -> id ∉ codes wr -> id ∈ leftover.
Proof.
  induction 1 as [|w wr' ids0 m d ids' Hw _ IH|w wr' ids0 ids1 z m d ids' Hw Hrm _ _ IH];
    [done| |]; simpl; intros Hid Hno; apply not_elem_of_cons in Hno as [Hne Hno].
  - by apply IH.
  - apply IH; [|done]. by eapply remove_first_other.
Qed.

Lemma stock_pass_covers W wr ids matched derived leftover (id : string) :
  stock_pass W wr ids matched derived leftover ->
  id ∈ ids -> id ∈ leftover \/ id ∈ map offer_id derived.
Proof.
  induction 1 as [|w wr' ids0 m d ids' Hw _ IH|w wr' ids0 ids1 z m d ids' Hw Hrm _ _ IH];
    [by left | done |].
  intros Hid. simpl. destruct (decide (id = code w)) as [->|Hne].
  - right. apply list_elem_of_here.
  - destruct IH as [?|?]; [by eapply remove_first_other | by left |].
    right. by apply list_elem_of_further.
Qed.

Lemma stock_pass_first_match W wr ids matched derived leftover (w : watch) :
  stock_pass W wr ids matched derived leftover ->
  w ∈ wr -> code w ∈ ids -> code w ∈ codes matched.
Proof.
  induction 1 as [|w0 wr' ids0 m d ids' Hw _ IH|w0 wr' ids0 ids1 z m d ids' Hw Hrm _ _ IH].
  - intros Hin. by apply elem_of_nil in Hin.
  - intros Hin Hid. apply elem_of_cons in Hin as [->|Hin]; [done | by apply IH].
  - intros Hin Hid. simpl. destruct (decide (code w = code w0)) as [->|Hne].
    + apply list_elem_of_here.
    + apply list_elem_of_further.
      apply elem_of_cons in Hin as [->|Hin]; [done|].
      apply IH; [done|]. by eapply remove_first_other.
Qed.

Lemma filter_agree {A} (P Q : A -> Prop)
    `{!forall x, Decision (P x)} `{!forall x, Decision (Q x)} (l : list A) :
  (forall x, x ∈ l -> P x <-> Q x) -> filter P l = filter Q l.
Proof.
  induction l as [|a l IH]; intros HPQ; [done|].
  rewrite !filter_cons.
  rewrite IH by (intros x Hx; apply HPQ; by apply list_elem_of_further).
  pose proof (HPQ a (list_elem_of_here _ _)).
  destruct (decide (P a)), (decide (Q a)); tauto.
Qed.

Lemma stock_pass_NoDup W wr ids matched derived leftover :
  stock_pass W wr ids matched derived leftover ->
  NoDup ids -> leftover = filter (fun id => id ∉ codes wr) ids.
Proof.
  induction 1 as [|w wr' ids0 m d ids' Hw _ IH|w wr' ids0 ids1 z m d ids' Hw Hrm _ _ IH];
    intros Hnd.
  - symmetry. clear Hnd. induction ids as [|a l IHl]; [done|].
    rewrite filter_cons_True by (simpl; apply not_elem_of_nil). by rewrite IHl.
  - rewrite IH by done. apply filter_agree. intros id Hid. simpl.
    rewrite not_elem_of_cons. split; [|tauto]. intros Hno. split; [|done].
    intros ->. done.
  - pose proof (remove_first_NoDup _ _ _ Hnd Hrm) as ->.
    rewrite IH by (by apply NoDup_filter).
    rewrite list_filter_filter. apply list_filter_iff. intros id. simpl.
    rewrite not_elem_of_cons. tauto.
Qed.

Lemma zero_loop_run (ids : list string) :
  forall (acc : list StockRec) (s : state),
    for_each ids (fun stocks offer_id => ret (stocks ++ [{| offer_id := offer_id; stock := 0 |}]))
      acc s = (Ok (acc ++ map zero_stock ids), s).
Proof.
  induction ids as [|id ids IH]; intros acc s; simpl.
  - by rewrite app_nil_r.
  - unfold bind, ret at 1. rewrite IH. by rewrite <- app_assoc.
Qed.

Lemma create_stocks_run (W : world) (wr : list watch) (l : loc) (s s' : state)
    (ids : list string) (stocks : list StockRec) :
  heap s !! l = Some ids ->
  create_stocks W wr l s = (Ok stocks, s') ->
  exists matched derived leftover,
    stock_pass W wr ids matched derived leftover /\
    stocks = derived ++ map zero_stock leftover /\
    s' = set_list l leftover s.
Proof.
  intros Hl. unfold create_stocks, bind at 1.
  destruct (for_each wr (create_stocks_row W l) [] s) as [[acc|e|] s1] eqn:Hrun; [|done..].
  apply (create_stocks_rows_run W l wr [] s ids) in Hrun
    as (matched & derived & leftover & Hp & -> & ->); [|done].
  unfold bind, deref. rewrite set_list_lookup by (by eapply lookup_lt_Some).
  simpl. rewrite zero_loop_run. intros [= <- <-]. eauto 10.
Qed.

(** ** [create_prices] *)

Lemma create_prices_row_run (l : loc) (acc : list PriceRec) (w : watch) (s : state) :
  create_prices_row l acc w s =
    if py_in (code w) (default [] (heap s !! l)) then
      match price_conversion_val (get w "Цена") with
      | inl e => (Raise e, s)
      | inr p => (Ok (acc ++ [price_record w p]), s)
      end
    else (Ok acc, s).
Proof.
  unfold create_prices_row, bind, deref. fold (code w).
  destruct (py_in (code w) (default [] (heap s !! l))); [|done].
  by destruct (price_conversion_val (get w "Цена")).
Qed.

Lemma create_prices_rows_frame (l : loc) (wr : list watch) :
  forall (acc : list PriceRec) (s : state),
    snd (for_each wr (create_prices_row l) acc s) = s.
Proof.
  induction wr as [|w wr IH]; intros acc s; simpl; [done|].
  unfold bind. rewrite create_prices_row_run.
  destruct (py_in _ _); [|apply IH].
  destruct (price_conversion_val _); [done | apply IH].
Qed.

Lemma create_prices_rows_run (l : loc) (wr : list watch) :
  forall (acc : list PriceRec) (s : state) (ids : list string) prices s',
    heap s !! l = Some ids ->
    for_each wr (create_prices_row l) acc s = (Ok prices, s') ->
    exists recs,
      prices = acc ++ recs /\
      Forall2 priced_from (filter (fun w => code w ∈ ids) wr) recs.
Proof.
  induction wr as [|w wr IH]; intros acc s ids prices s' Hl; simpl.
  - intros [= <- <-]. exists []. by rewrite app_nil_r.
  - unfold bind. rewrite create_prices_row_run, Hl. simpl.
    destruct (py_in (code w) ids) eqn:Hin.
    + apply py_in_true in Hin.
      destruct (price_conversion_val (get w "Цена")) as [e|p] eqn:Hp; [done|].
      intros Hrun. apply (IH _ _ ids) in Hrun as (recs & -> & Hrecs); [|done].
      exists (price_record w p :: recs). split; [by rewrite <- app_assoc|].
      rewrite filter_cons_True by done. constructor; [|done]. by exists p.
    + apply py_in_false in Hin. intros Hrun.
      apply (IH _ _ ids) in Hrun as (recs & -> & Hrecs); [|done].
      exists recs. split; [done|]. by rewrite filter_cons_False.
Qed.

Lemma create_prices_rows_total (l : loc) (wr : list watch) :
  forall (acc : list PriceRec) (s : state),
    Forall (fun w => exists p, get w "Цена" = PyStr p) wr ->
    exists prices, for_each wr (create_prices_row l) acc s = (Ok prices, s).
Proof.
  induction wr as [|w wr IH]; intros acc s Hwr; simpl; [by eexists|].
  apply Forall_cons in Hwr as [[p Hp] Hwr].
  unfold bind. rewrite create_prices_row_run, Hp. simpl.
  destruct (py_in _ _); by apply IH.
Qed.

Lemma priced_from_count (id : string) (rows : list watch) (recs : list PriceRec) :
  Forall2 priced_from rows recs ->
  length (filter (fun r => price_offer_id r = id) recs) =
  length (filter (fun w => code w = id) rows).
Proof.
  induction 1 as [|w r rows recs (p & _ & ->) _ IH]; [done|].
  rewrite !filter_cons. simpl.
  destruct (decide (code w = id)); simpl; by rewrite IH.
Qed.

Lemma filter_code_known (id : string) (ids : list string) (wr : list watch) :
  id ∈ ids ->
  filter (fun w => code w = id) (filter (fun w => code w ∈ ids) wr) =
  filter (fun w => code w = id) wr.
Proof.
  intros Hid. rewrite list_filter_filter. apply list_filter_iff.
  intros w. split; [tauto|]. intros <-. done.
Qed.

Lemma filter_code_absent (id : string) (wr : list watch) :
  id ∉ codes wr -> filter (fun w => code w = id) wr = [].
Proof.
  induction wr as [|w wr IH]; simpl; intros Hid; [done|].
  apply not_elem_of_cons in Hid as [Hne Hid].
  rewrite filter_cons_False by congruence. by apply IH.
Qed.

Lemma filter_code_NoDup (id : string) (wr : list watch) :
  NoDup (codes wr) -> id ∈ codes wr ->
  length (filter (fun w => code w = id) wr) = 1%nat.
Proof.
  induction wr as [|w wr IH]; simpl; intros Hnd Hid; [by apply elem_of_nil in Hid|].
  apply NoDup_cons in Hnd as [Hw Hnd]. rewrite filter_cons.
  destruct (decide (code w = id)) as [<-|Hne]; simpl.
  - by rewrite filter_code_absent.
  - apply elem_of_cons in Hid as [->|Hid]; [done | by apply IH].
Qed.

(** ** The batch splitter *)

Lemma slice_forward {A} (lst : list A) (a n : nat) :
  slice lst (Z.of_nat a) (Z.of_nat a + Z.of_nat n) = take n (drop a lst).
Proof.
  unfold slice, slice_bound.
  destruct (Z.ltb_spec (Z.of_nat a) 0) as [?|_]; [lia|].
  destruct (Z.ltb_spec (Z.of_nat a + Z.of_nat n) 0) as [?|_]; [lia|].
  rewrite Nat2Z.id. replace (Z.to_nat (Z.of_nat a + Z.of_nat n)) with (a + n)%nat by lia.
  destruct (Nat.le_gt_cases (length lst) a) as [Hge|Hlt].
  - rewrite (Nat.min_r a) by done. rewrite (Nat.min_r (a + n)) by lia.
    rewrite Nat.sub_diag. rewrite (drop_ge lst a) by done. by destruct n.
  - rewrite (Nat.min_l a) by lia.
    destruct (Nat.le_gt_cases (a + n) (length lst)) as [Hin|Hout].
    + rewrite Nat.min_l by done. f_equal. lia.
    + rewrite Nat.min_r by lia.
      rewrite !take_ge; [done | rewrite length_drop; lia..].
Qed.

(** The chunks as [divide] computes them for a positive size. *)
Lemma divide_pos {A} (lst : list A) (n : Z) :
  0 < n ->
  divide lst n =
    inr (map (fun k => take (Z.to_nat n) (drop (k * Z.to_nat n) lst))
             (seq 0 ((length lst + Z.to_nat n - 1) / Z.to_nat n))).
Proof.
  intros Hn. unfold divide, range0.
  destruct (Z.eqb_spec n 0) as [?|_]; [lia|].
  destruct (Z.ltb_spec n 0) as [?|_]; [lia|].
  f_equal. rewrite map_map. apply map_ext. intros k.
  rewrite <- (slice_forward lst (k * Z.to_nat n) (Z.to_nat n)).
  f_equal. lia.
Qed.

Lemma concat_chunks {A} (lst : list A) (n m : nat) :
  concat (map (fun k => take n (drop (k * n) lst)) (seq 0 m)) = take (m * n) lst.
Proof.
  induction m as [|m IH]; [done|].
  rewrite seq_S, map_app, concat_app, IH. simpl. rewrite app_nil_r.
  rewrite take_take_drop. f_equal. lia.
Qed.

Lemma chunk_count_bounds (len n : nat) :
  (0 < n)%nat ->
  let m := ((len + n - 1) / n)%nat in
  (len <= m * n)%nat /\ ((0 < len)%nat -> (0 < m)%nat /\ ((m - 1) * n < len)%nat).
Proof.
  intros Hn m.
  pose proof (Nat.div_mod_eq (len + n - 1) n) as Hdm.
  pose proof (Nat.mod_upper_bound (len + n - 1) n ltac:(lia)) as Hr.
  fold m in Hdm. split; [nia|]. intros Hlen.
  assert (0 < m)%nat by (destruct m; [nia | lia]).
  split; [done|]. nia.
Qed.

Lemma divide_nil {A} (n : Z) : 0 < n -> divide (@nil A) n = inr [].
Proof.
  intros Hn. rewrite divide_pos by done. simpl.
  by rewrite Nat.div_small by lia.
Qed.

(** C5.  For a positive chunk size, the chunks of [divide] concatenate back to
    the list, every chunk but the last has exactly [n] elements, and the last
    chunk of a non-empty list has between 1 and [n] elements. *)
Theorem divide_partition {A} (s : list A) (n : Z) :
  0 < n ->
  exists chunks,
    divide s n = inr chunks /\
    concat chunks = s /\
    (forall i c, chunks !! i = Some c -> (S i < length chunks)%nat ->
                 Z.of_nat (length c) = n) /\
    (s <> [] -> exists c, last chunks = Some c /\ 1 <= Z.of_nat (length c) <= n).
Proof.
  intros Hn. eexists. split; [by apply divide_pos|].
  set (n' := Z.to_nat n). set (m := ((length s + n' - 1) / n')%nat).
  assert (Hn' : (0 < n')%nat) by lia.
  destruct (chunk_count_bounds (length s) n' Hn') as [Hup Hlow]. fold m in Hup, Hlow.
  assert (Hchunk : forall i c,
            map (fun k => take n' (drop (k * n') s)) (seq 0 m) !! i = Some c ->
            (i < m)%nat /\ length c = Nat.min n' (length s - i * n')).
  { intros i c.
    change (map ?f ?l) with (f <$> l). rewrite list_lookup_fmap.
    destruct (seq 0 m !! i) as [k|] eqn:Hk; [|done].
    apply lookup_seq in Hk as [-> Hi]. simpl. intros [= <-].
    by rewrite length_take, length_drop. }
  split; [|split].
  - rewrite concat_chunks. by apply take_ge.
  - intros i c Hc Hi. rewrite length_map, length_seq in Hi.
    apply Hchunk in Hc as [_ ->].
    destruct (length s) as [|len] eqn:Hlen.
    { exfalso. subst m. rewrite Nat.div_small in Hi by lia. lia. }
    destruct Hlow as [_ Hlow]; [lia|]. nia.
  - intros Hs. assert (Hlen : (0 < length s)%nat) by (destruct s; [done | simpl; lia]).
    destruct (Hlow Hlen) as [Hm Hlast].
    rewrite last_lookup, length_map, length_seq.
    destruct (map (fun k => take n' (drop (k * n') s)) (seq 0 m) !! pred m) as [c|] eqn:Hc.
    + exists c. split; [done|]. apply Hchunk in Hc as [_ ->]. nia.
    + exfalso. apply lookup_ge_None in Hc. rewrite length_map, length_seq in Hc. lia.
Qed.

Lemma divide_partition_witness :
  exists chunks,
    divide [1; 2; 3; 4; 5] 2 = inr chunks /\
    concat chunks = [1; 2; 3; 4; 5] /\
    (forall i c, chunks !! i = Some c -> (S i < length chunks)%nat ->
                 Z.of_nat (length c) = 2) /\
    ([1; 2; 3; 4; 5] <> [] ->
     exists c, last chunks = Some c /\ 1 <= Z.of_nat (length c) <= 2).
Proof. apply (divide_partition [1; 2; 3; 4; 5] 2). lia. Defined.

(** C6.  On the empty list [divide] produces no chunk at all, where its
    docstring and the specification promise one empty chunk. *)
Theorem divide_empty_yields_no_chunk :
  divide (@nil StockRec) 100 = inr [] /\
  divide (@nil PriceRec) 900 = inr [] /\
  divide (@nil Z) 2 = inr [] /\
  divide (@nil Z) 2 <> inr [[]].
Proof. repeat split; [by apply divide_nil; lia..|]. by rewrite divide_nil. Qed.

(** ** The price normaliser *)

Lemma is_digit_ascii_digits (c : ascii) : is_digit c = true <-> c ∈ ascii_digits.
Proof.
  assert (H : is_digit c = bool_decide (c ∈ ascii_digits))
    by (destruct c as [[] [] [] [] [] [] [] []]; vm_compute; reflexivity).
  rewrite H. apply bool_decide_eq_true.
Qed.

Lemma split_head (s : string) :
  hd EmptyString (split "." s) =
  string_of_list_ascii (before_first "." (list_ascii_of_string s)).
Proof.
  induction s as [|c s IH]; [done|]. simpl.
  destruct (Ascii.eqb_spec c ".") as [->|Hne].
  - by rewrite decide_True.
  - rewrite decide_False by done. simpl. rewrite <- IH.
    by destruct (split "." s).
Qed.

Lemma re_sub_non_digits_filter (cs : list ascii) :
  re_sub_non_digits (string_of_list_ascii cs) =
  string_of_list_ascii (filter (fun c => c ∈ ascii_digits) cs).
Proof.
  induction cs as [|c cs IH]; [done|]. simpl. rewrite filter_cons.
  destruct (is_digit c) eqn:Hc.
  - apply is_digit_ascii_digits in Hc. rewrite decide_True by done.
    simpl. by rewrite IH.
  - rewrite decide_False; [done|].
    intros Hin. apply is_digit_ascii_digits in Hin. congruence.
Qed.

(** C8.  [price_conversion] keeps the ASCII digits of the prefix before the
    first period (of the whole string when it has no period), so its result
    consists of ASCII digits only. *)
Theorem price_conversion_spec (p : string) :
  price_conversion p = spec_price_normalizer p /\
  Forall (fun c => c ∈ ascii_digits) (list_ascii_of_string (price_conversion p)).
Proof.
  assert (Heq : price_conversion p = spec_price_normalizer p).
  { unfold price_conversion, spec_price_normalizer.
    rewrite split_head. apply re_sub_non_digits_filter. }
  split; [done|]. rewrite Heq. unfold spec_price_normalizer.
  rewrite list_ascii_of_string_of_list_ascii.
  apply Forall_forall. intros c Hc. by apply list_elem_of_filter in Hc as [Hc _].
Qed.

(** C7.  The first documented example holds; on the second one the code
    returns ["1234500"], not the documented ["12345"]: the comma is not a
    period, so the two decimals stay in the prefix and survive as digits. *)
Theorem price_conversion_examples :
  price_conversion "5'990.00 руб." = "5990" /\
  price_conversion "12 345,00 руб." = "1234500" /\
  price_conversion "12 345,00 руб." <> "12345".
Proof. repeat split. by vm_compute. Qed.

(** ** [create_stocks] *)

Lemma remove_first_delete (x : string) (l l' : list string) :
  remove_first x l = Some l' -> delete_first x l = l'.
Proof. unfold delete_first. by intros ->. Qed.

Lemma remove_first_absent (x : string) (l : list string) :
  x ∉ l -> remove_first x l = None.
Proof.
  induction l as [|y l IH]; intros Hx; [done|].
  apply not_elem_of_cons in Hx as [Hne Hx]. simpl.
  destruct (String.eqb_spec y x) as [?|_]; [congruence|]. by rewrite IH.
Qed.

Lemma delete_first_absent (x : string) (l : list string) :
  x ∉ l -> delete_first x l = l.
Proof. intros Hx. unfold delete_first. by rewrite remove_first_absent. Qed.

Lemma remove_first_Permutation (x : string) (l l' : list string) :
  remove_first x l = Some l' -> l ≡ₚ x :: l'.
Proof.
  revert l'. induction l as [|y l IH]; intros l'; simpl; [done|].
  destruct (String.eqb_spec y x) as [->|Hne]; [by intros [= <-]|].
  destruct (remove_first x l) as [l1|]; simpl; [|done].
  intros [= <-]. rewrite (IH l1 eq_refl). apply Permutation_swap.
Qed.

(** The rows and the identifiers of a pass are those the vocabulary names. *)
Lemma stock_pass_functions W wr ids matched derived leftover :
  stock_pass W wr ids matched derived leftover ->
  matched = matched_rows wr ids /\ leftover = remaining_ids wr ids.
Proof.
  induction 1 as [|w wr' ids0 m d ids' Hw _ [-> ->]
                  |w wr' ids0 ids1 z m d ids' Hw Hrm _ _ [-> ->]]; [done|..].
  - simpl. rewrite decide_False by done. unfold remaining_ids. simpl.
    by rewrite delete_first_absent.
  - simpl. rewrite decide_True by done. unfold remaining_ids. simpl.
    by rewrite (remove_first_delete _ _ _ Hrm).
Qed.

Lemma stock_pass_Permutation W wr ids matched derived leftover :
  stock_pass W wr ids matched derived leftover ->
  map offer_id derived ++ leftover ≡ₚ ids.
Proof.
  induction 1 as [|w wr' ids0 m d ids' Hw _ IH|w wr' ids0 ids1 z m d ids' Hw Hrm _ _ IH];
    [done | done |].
  simpl. rewrite IH. symmetry. by apply remove_first_Permutation.
Qed.

Lemma stock_pass_matched_known W wr ids matched derived leftover :
  stock_pass W wr ids matched derived leftover ->
  Forall (fun w => code w ∈ ids) matched.
Proof.
  induction 1 as [|w wr' ids0 m d ids' Hw _ IH|w wr' ids0 ids1 z m d ids' Hw Hrm _ _ IH];
    [constructor | done |].
  constructor; [done|]. eapply Forall_impl; [exact IH|].
  intros w' Hw'. eapply sublist_subseteq; [|exact Hw']. by eapply remove_first_sublist.
Qed.

Lemma stock_pass_matched_NoDup W wr ids matched derived leftover :
  stock_pass W wr ids matched derived leftover ->
  NoDup (codes wr) -> matched = filter (fun w => code w ∈ ids) wr.
Proof.
  induction 1 as [|w wr' ids0 m d ids' Hw _ IH|w wr' ids0 ids1 z m d ids' Hw Hrm _ _ IH];
    simpl; intros Hnd; [done|..]; apply NoDup_cons in Hnd as [Hfresh Hnd].
  - rewrite filter_cons_False by done. by apply IH.
  - rewrite filter_cons_True by done. f_equal. rewrite IH by done.
    apply filter_agree. intros w' Hw'.
    assert (Hne : code w' <> code w).
    { intros Heq. apply Hfresh. rewrite <- Heq.
      change (codes wr') with (code <$> wr'). by apply list_elem_of_fmap_2. }
    split.
    + apply sublist_subseteq. by eapply remove_first_sublist.
    + by eapply remove_first_other.
Qed.

Lemma stock_pass_derived_ids W wr ids matched derived leftover :
  stock_pass W wr ids matched derived leftover ->
  map offer_id derived = codes matched /\ length derived = length matched.
Proof. induction 1 as [| |? ? ? ? ? ? ? ? ? ? ? ? [IH1 IH2]]; simpl; [done..|]. by rewrite IH1, IH2. Qed.

Lemma create_stocks_rows_total (W : world) (l : loc) (wr : list watch) :
  forall (acc : list StockRec) (s : state) (ids : list string),
    heap s !! l = Some ids ->
    Forall (fun w => exists z, quantity_policy W (quantity w) z) (matched_rows wr ids) ->
    exists stocks s', for_each wr (create_stocks_row W l) acc s = (Ok stocks, s').
Proof.
  induction wr as [|w wr IH]; intros acc s ids Hl Hwr; simpl; [by eexists _, _|].
  unfold bind. rewrite (create_stocks_row_run W l acc w s ids Hl).
  simpl in Hwr. destruct (decide (code w ∈ ids)) as [Hin|Hout].
  - apply Forall_cons in Hwr as [[z Hz] Hwr]. apply resolve_quantity_policy in Hz.
    rewrite (proj2 (py_in_true _ _) Hin), Hz.
    destruct (remove_first_elem _ _ Hin) as [ids1 Hrm]. rewrite Hrm.
    rewrite (remove_first_delete _ _ _ Hrm) in Hwr.
    apply (IH _ _ ids1); [|done].
    apply set_list_lookup. by eapply lookup_lt_Some.
  - rewrite (proj2 (py_in_false _ _) Hout). by eapply IH.
Qed.

Lemma create_stocks_total (W : world) (wr : list watch) (l : loc) (s : state) (ids : list string) :
  heap s !! l = Some ids ->
  Forall (fun w => exists z, quantity_policy W (quantity w) z) (matched_rows wr ids) ->
  exists stocks s', create_stocks W wr l s = (Ok stocks, s').
Proof.
  intros Hl Hwr.
  destruct (create_stocks_rows_total W l wr [] s ids Hl Hwr) as (acc & s1 & Hrun).
  unfold create_stocks, bind. rewrite Hrun. unfold deref.
  rewrite zero_loop_run. by eexists _, _.
Qed.

(** C3.  When [create_stocks] returns, every catalog identifier that no
    inventory row carries has its quantity-0 record, and every catalog
    identifier has some record.  The records are, in this order: one for each
    inventory row that finds its identifier among the catalog identifiers the
    rows before it have left, in inventory order and with that identifier;
    then a quantity-0 record for each identifier left at the end, in catalog
    order.  The matched rows are known to the catalog and every known
    identifier of the inventory has one; matched and left identifiers together
    are the catalog, each entry counted once.  When the catalog repeats no
    identifier the left ones are exactly those no row carries, and when the
    inventory repeats none the matched rows are exactly the known ones. *)
Theorem create_stocks_zero_out_and_order
    (W : world) (wr : list watch) (l : loc) (s s' : state)
    (ids : list string) (stocks : list StockRec) :
  heap s !! l = Some ids ->
  create_stocks W wr l s = (Ok stocks, s') ->
  (forall id, id ∈ ids -> id ∉ codes wr -> zero_stock id ∈ stocks) /\
  (forall id, id ∈ ids -> id ∈ map offer_id stocks) /\
  map offer_id stocks = codes (matched_rows wr ids) ++ remaining_ids wr ids /\
  drop (length (matched_rows wr ids)) stocks = map zero_stock (remaining_ids wr ids) /\
  sublist (matched_rows wr ids) wr /\
  sublist (remaining_ids wr ids) ids /\
  Forall (fun w => code w ∈ ids) (matched_rows wr ids) /\
  (forall w, w ∈ wr -> code w ∈ ids -> code w ∈ codes (matched_rows wr ids)) /\
  codes (matched_rows wr ids) ++ remaining_ids wr ids ≡ₚ ids /\
  (NoDup ids -> remaining_ids wr ids = filter (fun id => id ∉ codes wr) ids) /\
  (NoDup (codes wr) -> matched_rows wr ids = filter (fun w => code w ∈ ids) wr).
Proof.
  intros Hl Hrun.
  destruct (create_stocks_run W wr l s s' ids stocks Hl Hrun)
    as (matched & derived & leftover & Hp & -> & _).
  destruct (stock_pass_functions _ _ _ _ _ _ Hp) as [<- <-].
  destruct (stock_pass_derived_ids _ _ _ _ _ _ Hp) as [Hids Hlen].
  assert (Hmap : map offer_id (derived ++ map zero_stock leftover) =
                 codes matched ++ leftover).
  { rewrite map_app, map_map, Hids. simpl. by rewrite map_id. }
  split; [|split; [|split; [|split; [|split; [|split; [|split; [|split; [|split; [|split]]]]]]]]].
  - intros id Hid Hno. apply elem_of_app. right.
    change (map zero_stock leftover) with (zero_stock <$> leftover).
    apply list_elem_of_fmap_2. by eapply stock_pass_keeps_unmatched.
  - intros id Hid. rewrite Hmap, <- Hids. apply elem_of_app.
    destruct (stock_pass_covers _ _ _ _ _ _ id Hp Hid) as [Hleft|Hder]; [by right | by left].
  - exact Hmap.
  - rewrite <- Hlen. by rewrite drop_app_length.
  - by eapply stock_pass_matched_sublist.
  - by eapply stock_pass_leftover_sublist.
  - by eapply stock_pass_matched_known.
  - intros w Hw Hid. by apply (stock_pass_first_match _ _ _ _ _ _ w Hp).
  - rewrite <- Hids. by eapply stock_pass_Permutation.
  - intros Hnd. by eapply stock_pass_NoDup.
  - intros Hnd. by eapply stock_pass_matched_NoDup.
Qed.

Lemma create_stocks_zero_out_and_order_witness :
  heap (holding ["A"; "B"; "C"; "D"]) !! 0%nat = Some ["A"; "B"; "C"; "D"] /\
  map offer_id
    [{| offer_id := "A"; stock := 100 |}; {| offer_id := "B"; stock := 0 |};
     {| offer_id := "C"; stock := 3 |}; {| offer_id := "D"; stock := 0 |}] =
  codes (matched_rows [stock_row "A" ">10"; stock_row "B" "1"; stock_row "C" "3"]
           ["A"; "B"; "C"; "D"]) ++
  remaining_ids [stock_row "A" ">10"; stock_row "B" "1"; stock_row "C" "3"]
    ["A"; "B"; "C"; "D"] /\
  drop (length (matched_rows [stock_row "A" ">10"; stock_row "B" "1"; stock_row "C" "3"]
                  ["A"; "B"; "C"; "D"]))
    [{| offer_id := "A"; stock := 100 |}; {| offer_id := "B"; stock := 0 |};
     {| offer_id := "C"; stock := 3 |}; {| offer_id := "D"; stock := 0 |}] =
  map zero_stock
    (remaining_ids [stock_row "A" ">10"; stock_row "B" "1"; stock_row "C" "3"]
       ["A"; "B"; "C"; "D"]).
Proof.
  split; [reflexivity|].
  destruct (create_stocks_zero_out_and_order world_small
              [stock_row "A" ">10"; stock_row "B" "1"; stock_row "C" "3"]
              0%nat (holding ["A"; "B"; "C"; "D"]) (holding ["D"]) ["A"; "B"; "C"; "D"]
              [{| offer_id := "A"; stock := 100 |}; {| offer_id := "B"; stock := 0 |};
               {| offer_id := "C"; stock := 3 |}; {| offer_id := "D"; stock := 0 |}])
    as (_ & _ & Hids & Hzero & _).
  - reflexivity.
  - vm_compute. reflexivity.
  - split; [exact Hids | exact Hzero].
Defined.

(** C4.  [create_stocks] resolves quantities by the fixed policy.  Whenever
    it returns, its records are those of the matched rows followed by the
    quantity-0 records of the identifiers left, and the record of a matched
    row has stock 100 for the quantity [">10"], 0 for ["1"], and otherwise the
    integer [int] reads in the quantity.  It returns exactly when the
    quantity of every matched row resolves.  On the example of the
    specification, where [int] reads "3" as 3, it gives 100 for A, 0 for B,
    3 for C and 0 for D. *)
Theorem create_stocks_quantity_policy :
  (forall (W : world) (wr : list watch) (l : loc) (s : state) (ids : list string),
      heap s !! l = Some ids ->
      (Forall (fun w => exists z, quantity_policy W (quantity w) z) (matched_rows wr ids) <->
       exists stocks s', create_stocks W wr l s = (Ok stocks, s')) /\
      (forall stocks s',
          create_stocks W wr l s = (Ok stocks, s') ->
          exists derived,
            stocks = derived ++ map zero_stock (remaining_ids wr ids) /\
            Forall2 (fun w r => offer_id r = code w /\
                                quantity_policy W (quantity w) (stock r))
                    (matched_rows wr ids) derived)) /\
  (forall W : world,
      builtin_int W "3" = inr 3 ->
      fst (create_stocks W [stock_row "A" ">10"; stock_row "B" "1"; stock_row "C" "3"] 0%nat
             (holding ["A"; "B"; "C"; "D"])) =
        Ok [{| offer_id := "A"; stock := 100 |}; {| offer_id := "B"; stock := 0 |};
            {| offer_id := "C"; stock := 3 |}; {| offer_id := "D"; stock := 0 |}]).
Proof.
  split.
  - intros W wr l s ids Hl.
    assert (Hshape : forall stocks s',
               create_stocks W wr l s = (Ok stocks, s') ->
               exists derived,
                 stocks = derived ++ map zero_stock (remaining_ids wr ids) /\
                 Forall2 (fun w r => offer_id r = code w /\
                                     quantity_policy W (quantity w) (stock r))
                         (matched_rows wr ids) derived).
    { intros stocks s' Hrun.
      destruct (create_stocks_run W wr l s s' ids stocks Hl Hrun)
        as (matched & derived & leftover & Hp & -> & _).
      destruct (stock_pass_functions _ _ _ _ _ _ Hp) as [<- <-].
      exists derived. split; [done|]. by eapply stock_pass_derived. }
    split; [split|exact Hshape].
    + by apply (create_stocks_total W wr l s ids).
    + intros (stocks & s' & Hrun). destruct (Hshape _ _ Hrun) as (derived & _ & Hpol).
      clear -Hpol. induction Hpol as [|w r ws rs [_ Hw] _ IH]; constructor; [|done].
      by exists (stock r).
  - intros W H3. vm_compute. vm_compute in H3. by rewrite H3.
Qed.

Lemma create_stocks_quantity_policy_witness :
  heap (holding ["A"; "B"; "C"; "D"]) !! 0%nat = Some ["A"; "B"; "C"; "D"] /\
  builtin_int world_small "3" = inr 3 /\
  (exists stocks s',
      create_stocks world_small [stock_row "A" ">10"; stock_row "B" "1"; stock_row "C" "3"]
        0%nat (holding ["A"; "B"; "C"; "D"]) = (Ok stocks, s')) /\
  fst (create_stocks world_small [stock_row "A" ">10"; stock_row "B" "1"; stock_row "C" "3"]
         0%nat (holding ["A"; "B"; "C"; "D"])) =
    Ok [{| offer_id := "A"; stock := 100 |}; {| offer_id := "B"; stock := 0 |};
        {| offer_id := "C"; stock := 3 |}; {| offer_id := "D"; stock := 0 |}].
Proof.
  destruct create_stocks_quantity_policy as [Hgeneral Hexample].
  split; [reflexivity|]. split; [reflexivity|]. split.
  - destruct (Hgeneral world_small
                [stock_row "A" ">10"; stock_row "B" "1"; stock_row "C" "3"] 0%nat
                (holding ["A"; "B"; "C"; "D"]) ["A"; "B"; "C"; "D"] eq_refl) as [[Hret _] _].
    apply Hret.
    assert (Hrows : matched_rows [stock_row "A" ">10"; stock_row "B" "1"; stock_row "C" "3"]
                      ["A"; "B"; "C"; "D"] =
                    [stock_row "A" ">10"; stock_row "B" "1"; stock_row "C" "3"])
      by reflexivity.
    rewrite Hrows.
    apply Forall_cons. split; [exists 100; left; split; reflexivity|].
    apply Forall_cons. split; [exists 0; right; left; split; reflexivity|].
    apply Forall_cons. split; [|constructor].
    exists 3. right. right. split; [discriminate|]. split; [discriminate | reflexivity].
  - apply Hexample. reflexivity.
Defined.

(** ** The pagination loop *)

Lemma get_product_list_run (W : world) (last_id : string) (s : state) :
  get_product_list W last_id s =
    (match product_list_api W (listed s) with
     | inr p => Ok p
     | inl e => Raise e
     end,
     {| heap := heap s; sent := sent s ++ [ListProducts last_id];
        listed := S (listed s); stdout := stdout s |}).
Proof.
  unfold get_product_list, bind, log, lift. simpl.
  by destruct (product_list_api W (listed s)).
Qed.

Lemma settles_answered (W : world) (k : nat) (p : page) :
  product_list_api W k = inr p ->
  settles W k <-> result_total p = Z.of_nat (length (accumulated W k ++ result_items p)).
Proof.
  intros Hp. unfold settles. simpl. rewrite Hp. split.
  - by intros (p' & [= <-] & Htot).
  - intros Htot. by exists p.
Qed.

(** What a returning loop has seen. *)
Lemma get_offer_ids_loop_returns (W : world) (fuel : nat) :
  forall (last_id : string) (s s' : state) (product_list : list product),
    get_offer_ids_loop W fuel last_id (accumulated W (listed s)) s = (Ok product_list, s') ->
    exists k,
      (listed s <= k < listed s + fuel)%nat /\
      (forall j, (listed s <= j <= k)%nat -> answered W j) /\
      (forall j, (listed s <= j < k)%nat -> ~ settles W j) /\
      settles W k /\
      product_list = accumulated W (S k) /\
      heap s' = heap s /\ listed s' = S k.
Proof.
  induction fuel as [|fuel IH]; intros last_id s s' product_list; simpl; [done|].
  unfold bind at 1. rewrite get_product_list_run.
  destruct (product_list_api W (listed s)) as [e|p] eqn:Hp; [done|].
  destruct (Z.eqb_spec (result_total p)
              (Z.of_nat (length (accumulated W (listed s) ++ result_items p)))) as [Htot|Htot].
  - intros [= <- <-]. exists (listed s). simpl. rewrite Hp.
    split; [lia|]. split; [|split; [intros j; lia|]].
    + intros j Hj. replace j with (listed s) by lia. by exists p.
    + split; [by apply (settles_answered W _ p)|done].
  - intros Hrun.
    pose (s1 := {| heap := heap s; sent := sent s ++ [ListProducts last_id];
                   listed := S (listed s); stdout := stdout s |}).
    assert (Hacc : accumulated W (listed s) ++ result_items p = accumulated W (listed s1))
      by (simpl; by rewrite Hp).
    rewrite Hacc in Hrun. apply IH in Hrun as (k & Hk & Hans & Hno & Hset & -> & Hheap & Hl).
    simpl in *. exists k. split; [lia|]. split; [|split].
    + intros j Hj. destruct (decide (j = listed s)) as [->|Hne]; [by exists p|].
      apply Hans. lia.
    + intros j Hj. destruct (decide (j = listed s)) as [->|Hne].
      * by rewrite (settles_answered W _ p).
      * apply Hno. lia.
    + done.
Qed.

(** A page that settles makes the loop return, given enough turns. *)
Lemma get_offer_ids_loop_settles (W : world) (d : nat) :
  forall (last_id : string) (s : state) (fuel : nat),
    (forall j, (listed s <= j <= listed s + d)%nat -> answered W j) ->
    settles W (listed s + d) ->
    (d < fuel)%nat ->
    exists product_list s',
      get_offer_ids_loop W fuel last_id (accumulated W (listed s)) s = (Ok product_list, s').
Proof.
  induction d as [|d IH]; intros last_id s fuel Hans Hset Hfuel;
    (destruct fuel as [|fuel]; [lia|]); simpl;
    unfold bind at 1; rewrite get_product_list_run;
    destruct (Hans (listed s) ltac:(lia)) as [p Hp]; rewrite Hp.
  - rewrite Nat.add_0_r in Hset. apply (settles_answered W _ p Hp) in Hset.
    rewrite Hset, Z.eqb_refl. by eexists _, _.
  - destruct (Z.eqb_spec (result_total p)
                (Z.of_nat (length (accumulated W (listed s) ++ result_items p)))) as [Htot|Htot];
      [by eexists _, _|].
    pose (s1 := {| heap := heap s; sent := sent s ++ [ListProducts last_id];
                   listed := S (listed s); stdout := stdout s |}).
    assert (Hacc : accumulated W (listed s) ++ result_items p = accumulated W (listed s1))
      by (simpl; by rewrite Hp).
    rewrite Hacc. apply IH; simpl.
    + intros j Hj. apply Hans. lia.
    + by replace (S (listed s + d)) with (listed s + S d)%nat by lia.
    + lia.
Qed.

(** Without a settling page the loop uses up any number of turns. *)
Lemma get_offer_ids_loop_diverges (W : world) (fuel : nat) :
  forall (last_id : string) (s : state),
    (forall k, answered W k /\ ~ settles W k) ->
    fst (get_offer_ids_loop W fuel last_id (accumulated W (listed s)) s) = Diverge.
Proof.
  induction fuel as [|fuel IH]; intros last_id s Hnever; simpl; [done|].
  unfold bind at 1. rewrite get_product_list_run.
  destruct (Hnever (listed s)) as [[p Hp] Hno]. rewrite Hp.
  rewrite (settles_answered W _ p Hp) in Hno.
  destruct (Z.eqb_spec (result_total p)
              (Z.of_nat (length (accumulated W (listed s) ++ result_items p)))) as [Htot|Htot];
    [done|].
  pose (s1 := {| heap := heap s; sent := sent s ++ [ListProducts last_id];
                 listed := S (listed s); stdout := stdout s |}).
  assert (Hacc : accumulated W (listed s) ++ result_items p = accumulated W (listed s1))
    by (simpl; by rewrite Hp).
  rewrite Hacc. by apply IH.
Qed.

Lemma offer_id_loop_run (l : loc) (product_list : list product) :
  forall (s : state) (ids : list string),
    heap s !! l = Some ids ->
    for_each product_list
      (fun _ product =>
         let* ids := deref l in assign l (ids ++ [product_offer_id product])) () s
    = (Ok (), set_list l (ids ++ map product_offer_id product_list) s).
Proof.
  induction product_list as [|product pl IH]; intros s ids Hl; simpl.
  - by rewrite app_nil_r, set_list_same.
  - unfold bind at 1. unfold bind at 1. unfold deref, assign. rewrite Hl. simpl.
    rewrite (IH _ (ids ++ [product_offer_id product])).
    + by rewrite set_list_twice, <- app_assoc.
    + apply set_list_lookup. by eapply lookup_lt_Some.
Qed.

(** [get_offer_ids] in terms of its loop: a new list object holding the
    identifiers of the gathered items. *)
Lemma get_offer_ids_run (W : world) (fuel : nat) (s : state) :
  get_offer_ids W fuel s =
    match get_offer_ids_loop W fuel "" [] s with
    | (Ok product_list, s1) =>
        (Ok (length (heap s1)),
         {| heap := heap s1 ++ [map product_offer_id product_list];
            sent := sent s1; listed := listed s1; stdout := stdout s1 |})
    | (Raise e, s1) => (Raise e, s1)
    | (Diverge, s1) => (Diverge, s1)
    end.
Proof.
  unfold get_offer_ids, bind at 1.
  destruct (get_offer_ids_loop W fuel "" [] s) as [[pl|e|] s1]; [|done..].
  unfold bind at 1. unfold alloc at 1. unfold bind at 1.
  rewrite (offer_id_loop_run _ pl _ []) by (simpl; apply list_lookup_middle; done).
  unfold ret, set_list. simpl. do 2 f_equal.
  rewrite <- (Nat.add_0_r (length (heap s1))). by rewrite insert_app_r.
Qed.

(** C10.  [get_offer_ids] returns exactly when some page, all requests up to
    it being answered, reports a total equal to the number of items gathered
    so far; it then holds the identifiers of all gathered items, after as many
    requests as it took to reach the first such page.  Nothing bounds the
    number of turns: when no page ever settles, the loop is still running
    after any number of them. *)
Theorem get_offer_ids_termination (W : world) :
  ((exists fuel l s', get_offer_ids W fuel initial = (Ok l, s')) <->
   (exists k, (forall j, (j <= k)%nat -> answered W j) /\ settles W k)) /\
  (forall fuel l s',
      get_offer_ids W fuel initial = (Ok l, s') ->
      exists k,
        (k < fuel)%nat /\ settles W k /\ (forall j, (j < k)%nat -> ~ settles W j) /\
        heap s' !! l = Some (map product_offer_id (accumulated W (S k))) /\
        listed s' = S k) /\
  (forall k fuel,
      (forall j, (j <= k)%nat -> answered W j) -> settles W k -> (k < fuel)%nat ->
      exists l s', get_offer_ids W fuel initial = (Ok l, s')) /\
  ((forall k, answered W k /\ ~ settles W k) ->
   forall fuel, fst (get_offer_ids W fuel initial) = Diverge).
Proof.
  assert (Hret : forall fuel l s',
      get_offer_ids W fuel initial = (Ok l, s') ->
      exists k,
        (k < fuel)%nat /\ (forall j, (j <= k)%nat -> answered W j) /\
        settles W k /\ (forall j, (j < k)%nat -> ~ settles W j) /\
        heap s' !! l = Some (map product_offer_id (accumulated W (S k))) /\
        listed s' = S k).
  { intros fuel l s'. rewrite get_offer_ids_run.
    destruct (get_offer_ids_loop W fuel "" [] initial) as [[pl|e|] s1] eqn:Hloop; [|done..].
    apply (get_offer_ids_loop_returns W fuel "" initial) in Hloop
      as (k & Hk & Hans & Hno & Hset & -> & Hheap & Hl).
    simpl in *. intros [= <- <-]. exists k. simpl.
    split; [lia|]. split; [intros j Hj; apply Hans; lia|]. split; [done|].
    split; [intros j Hj; apply Hno; lia|]. split; [|done].
    by rewrite Hheap. }
  assert (Hgo : forall k fuel,
      (forall j, (j <= k)%nat -> answered W j) -> settles W k -> (k < fuel)%nat ->
      exists l s', get_offer_ids W fuel initial = (Ok l, s')).
  { intros k fuel Hans Hset Hfuel. rewrite get_offer_ids_run.
    destruct (get_offer_ids_loop_settles W k "" initial fuel) as (pl & s1 & Hloop);
      [intros j Hj; apply Hans; simpl in Hj; lia | done | done |].
    simpl in Hloop. rewrite Hloop. by eexists _, _. }
  split; [split|split; [|split]].
  - intros (fuel & l & s' & Hrun).
    apply Hret in Hrun as (k & _ & Hans & Hset & _). by exists k.
  - intros (k & Hans & Hset). exists (S k).
    apply (Hgo k); [done | done | lia].
  - intros fuel l s' Hrun.
    apply Hret in Hrun as (k & Hk & _ & Hset & Hno & Hheap & Hl). by exists k.
  - done.
  - intros Hnever fuel. rewrite get_offer_ids_run.
    pose proof (get_offer_ids_loop_diverges W fuel "" initial Hnever) as Hdiv.
    simpl in Hdiv.
    destruct (get_offer_ids_loop W fuel "" [] initial) as [[pl|e|] s1]; by simpl in *.
Qed.

Lemma get_offer_ids_termination_witness :
  (exists l s', get_offer_ids world_small 2 initial = (Ok l, s')) /\
  fst (get_offer_ids world_stuck 1000 initial) = Diverge.
Proof.
  destruct (get_offer_ids_termination world_small) as (_ & _ & Hgo & _).
  destruct (get_offer_ids_termination world_stuck) as (_ & _ & _ & Hnever).
  split.
  - apply (Hgo 1%nat 2%nat).
    + intros j _. unfold answered. simpl. destruct j; by eexists.
    + unfold settles. simpl. by eexists.
    + lia.
  - apply Hnever. intros k. split; [by eexists|].
    intros (p & [= <-] & Htot). simpl in Htot. lia.
Defined.

(** ** [create_prices] on a given catalog *)

Lemma create_prices_rows_unknown (l : loc) (wr : list watch) :
  forall (acc : list PriceRec) (s : state),
    (forall w, w ∈ wr -> code w ∉ default [] (heap s !! l)) ->
    for_each wr (create_prices_row l) acc s = (Ok acc, s).
Proof.
  induction wr as [|w wr IH]; intros acc s Hno; simpl; [done|].
  unfold bind. rewrite create_prices_row_run.
  rewrite (proj2 (py_in_false _ _)) by (apply Hno, list_elem_of_here).
  apply IH. intros w' Hw'. by apply Hno, list_elem_of_further.
Qed.

(** C9 (amended).  When [create_prices] returns, an identifier that no
    inventory row carries has no price record, a catalog identifier has one
    price record for each inventory row that carries it (so exactly one when
    exactly one row carries it), and every record has currency ["RUB"] and old
    price ["0"]; [create_prices] does return when every price cell is a
    string. *)
Theorem create_prices_records
    (wr : list watch) (l : loc) (s : state) (ids : list string) :
  heap s !! l = Some ids ->
  (Forall (fun w => exists p, get w "Цена" = PyStr p) wr ->
   exists prices, create_prices wr l s = (Ok prices, s)) /\
  (forall prices s',
      create_prices wr l s = (Ok prices, s') ->
      (forall id, id ∉ codes wr -> filter (fun r => price_offer_id r = id) prices = []) /\
      (forall id, id ∈ ids ->
         length (filter (fun r => price_offer_id r = id) prices) =
         length (filter (fun w => code w = id) wr)) /\
      (forall id, id ∈ ids -> id ∈ codes wr -> NoDup (codes wr) ->
         length (filter (fun r => price_offer_id r = id) prices) = 1%nat) /\
      Forall (fun r => currency_code r = "RUB" /\ old_price r = "0") prices).
Proof.
  intros Hl. split; [by apply create_prices_rows_total|].
  intros prices s' Hrun.
  apply (create_prices_rows_run l wr [] s ids) in Hrun as (recs & -> & Hrecs); [|done].
  simpl.
  assert (Hcount : forall id, id ∈ ids ->
            length (filter (fun r => price_offer_id r = id) recs) =
            length (filter (fun w => code w = id) wr)).
  { intros id Hid. rewrite (priced_from_count id _ _ Hrecs). by rewrite filter_code_known. }
  split; [|split; [done|split]].
  - intros id Hid. apply length_zero_iff_nil.
    rewrite (priced_from_count id _ _ Hrecs), list_filter_filter.
    apply length_zero_iff_nil. rewrite <- (filter_code_absent id wr Hid).
    apply filter_agree. intros w Hw. split; [tauto|]. intros <-. exfalso.
    apply Hid. change (codes wr) with (code <$> wr). by apply list_elem_of_fmap_2.
  - intros id Hid Hin Hnd. rewrite Hcount by done. by apply filter_code_NoDup.
  - clear Hcount. induction Hrecs as [|w r rows recs (p & _ & ->) _ IH]; by constructor.
Qed.

Lemma create_prices_records_witness :
  heap (holding ["A"; "C"]) !! 0%nat = Some ["A"; "C"] /\
  ((Forall (fun w => exists p, get w "Цена" = PyStr p)
      [mk_watch "A" "2" "5'990.00 руб."; mk_watch "B" "3" "10.00"] ->
    exists prices,
      create_prices [mk_watch "A" "2" "5'990.00 руб."; mk_watch "B" "3" "10.00"] 0%nat
        (holding ["A"; "C"]) = (Ok prices, holding ["A"; "C"])) /\
   (forall prices s',
      create_prices [mk_watch "A" "2" "5'990.00 руб."; mk_watch "B" "3" "10.00"] 0%nat
        (holding ["A"; "C"]) = (Ok prices, s') ->
      (forall id, id ∉ codes [mk_watch "A" "2" "5'990.00 руб."; mk_watch "B" "3" "10.00"] ->
         filter (fun r => price_offer_id r = id) prices = []) /\
      (forall id, id ∈ ["A"; "C"] ->
         length (filter (fun r => price_offer_id r = id) prices) =
         length (filter (fun w => code w = id)
                   [mk_watch "A" "2" "5'990.00 руб."; mk_watch "B" "3" "10.00"])) /\
      (forall id, id ∈ ["A"; "C"] ->
         id ∈ codes [mk_watch "A" "2" "5'990.00 руб."; mk_watch "B" "3" "10.00"] ->
         NoDup (codes [mk_watch "A" "2" "5'990.00 руб."; mk_watch "B" "3" "10.00"]) ->
         length (filter (fun r => price_offer_id r = id) prices) = 1%nat) /\
      Forall (fun r => currency_code r = "RUB" /\ old_price r = "0") prices)).
Proof.
  split; [reflexivity|].
  apply (create_prices_records
           [mk_watch "A" "2" "5'990.00 руб."; mk_watch "B" "3" "10.00"] 0%nat
           (holding ["A"; "C"]) ["A"; "C"]).
  reflexivity.
Defined.

(** C9, as stated, fails: two inventory rows with the identifier "A" give
    two price records for "A". *)
Lemma create_prices_duplicate_rows :
  "A" ∈ ["A"] /\ "A" ∈ codes duplicated_inventory /\
  exists prices,
    create_prices duplicated_inventory 0%nat (holding ["A"]) = (Ok prices, holding ["A"]) /\
    length (filter (fun r => price_offer_id r = "A") prices) = 2%nat.
Proof.
  split; [by apply list_elem_of_here|]. split; [by apply list_elem_of_here|].
  eexists. split; [vm_compute; reflexivity|]. by vm_compute.
Qed.

(** ** The top-level run *)


Lemma price_batches_app (log log' : list request) :
  price_batches (log ++ log') = price_batches log ++ price_batches log'.
Proof. apply flat_map_app. Qed.

Lemma get_offer_ids_loop_quiet (W : world) (fuel : nat) :
  forall (last_id : string) (product_list : list product) (s : state),
    price_batches (sent (snd (get_offer_ids_loop W fuel last_id product_list s))) =
    price_batches (sent s).
Proof.
  induction fuel as [|fuel IH]; intros last_id product_list s; simpl; [done|].
  unfold bind at 1. rewrite get_product_list_run.
  destruct (product_list_api W (listed s)) as [e|p]; simpl.
  - by rewrite price_batches_app, app_nil_r.
  - destruct (result_total p =? _); simpl; [|rewrite IH; simpl];
      by rewrite price_batches_app, app_nil_r.
Qed.

Lemma get_offer_ids_quiet (W : world) (fuel : nat) (s : state) :
  price_batches (sent (snd (get_offer_ids W fuel s))) = price_batches (sent s).
Proof.
  rewrite get_offer_ids_run.
  pose proof (get_offer_ids_loop_quiet W fuel "" [] s) as Hq.
  by destruct (get_offer_ids_loop W fuel "" [] s) as [[pl|e|] s1].
Qed.

Lemma update_stocks_loop_quiet (W : world) (chunks : list (list StockRec)) :
  forall (s s' : state) (r : outcome ()),
    for_each chunks (fun _ some_stock => update_stocks W some_stock) () s = (r, s') ->
    heap s' = heap s /\ price_batches (sent s') = price_batches (sent s).
Proof.
  induction chunks as [|c chunks IH]; intros s s' r; simpl; [by intros [= <- <-]|].
  unfold bind at 1. unfold update_stocks, bind, log, lift. simpl.
  destruct (import_api W (ImportStocks c)) as [e|[]]; simpl.
  - intros [= <- <-]. simpl. by rewrite price_batches_app, app_nil_r.
  - intros Hrun. apply IH in Hrun as [-> ->]. simpl.
    by rewrite price_batches_app, app_nil_r.
Qed.

Lemma handler_prints (e : exn) (s : state) :
  match e with
  | ReadTimeout => print MsgTimeout
  | ConnectionError => print (MsgConnection e)
  | _ => print (MsgError e)
  end s = (Ok (), printed [message_of e] s).
Proof. by destruct e. Qed.

(** [main] with both credentials set: its [try] block, any exception of
    which is turned into a message. *)
Lemma main_with_credentials (W : world) (fuel : nat) (s : state) :
  credentials W ->
  main W fuel s =
    match main_try W fuel s with
    | (Raise e, s1) => (Ok (), printed [message_of e] s1)
    | r => r
    end.
Proof.
  intros [[token Htoken] [client Hclient]].
  unfold main, bind at 1. unfold env_str at 1. rewrite Htoken. unfold ret at 1.
  unfold bind at 1. unfold env_str at 1. rewrite Hclient. unfold ret at 1.
  unfold try_except. destruct (main_try W fuel s) as [[[]|e|] s1]; [done| |done].
  apply handler_prints.
Qed.

(** [main] with a credential missing: it raises before its [try] block. *)
Lemma main_without_credentials (W : world) (fuel : nat) (s : state) :
  ~ credentials W -> main W fuel s = (Raise EnvError, s).
Proof.
  intros Hno. unfold main, bind at 1. unfold env_str at 1.
  destruct (environ W "SELLER_TOKEN") as [token|] eqn:Htoken; [|done].
  unfold ret at 1. unfold bind at 1. unfold env_str at 1.
  destruct (environ W "CLIENT_ID") as [client|] eqn:Hclient; [|done].
  destruct Hno. unfold credentials. rewrite Htoken, Hclient. by split.
Qed.

Lemma credentials_dec (W : world) : credentials W \/ ~ credentials W.
Proof.
  unfold credentials.
  destruct (environ W "SELLER_TOKEN"), (environ W "CLIENT_ID");
    first [left; by split | right; intros [[? ?] [? ?]]; done].
Qed.

Lemma create_stocks_rows_sent (W : world) (l : loc) (wr : list watch) :
  forall (acc : list StockRec) (s : state) (ids : list string),
    heap s !! l = Some ids ->
    sent (snd (for_each wr (create_stocks_row W l) acc s)) = sent s.
Proof.
  induction wr as [|w wr IH]; intros acc s ids Hl; simpl; [done|].
  unfold bind. rewrite (create_stocks_row_run W l acc w s ids Hl).
  destruct (py_in (code w) ids); [|by eapply IH].
  destruct (resolve_quantity W (quantity w)) as [e|z]; [done|].
  destruct (remove_first (code w) ids) as [ids1|] eqn:Hrm; [|done].
  rewrite (IH _ _ ids1); [done|].
  apply set_list_lookup. by eapply lookup_lt_Some.
Qed.

Lemma create_stocks_sent (W : world) (wr : list watch) (l : loc) (s : state)
    (ids : list string) :
  heap s !! l = Some ids -> sent (snd (create_stocks W wr l s)) = sent s.
Proof.
  intros Hl. pose proof (create_stocks_rows_sent W l wr [] s ids Hl) as Hsent.
  unfold create_stocks, bind at 1.
  destruct (for_each wr (create_stocks_row W l) [] s) as [[acc|e|] s0]; [|done..].
  unfold bind, deref. by rewrite zero_loop_run.
Qed.

Lemma create_stocks_leaves_none_known
    (W : world) (wr : list watch) (l : loc) (s s1 : state)
    (ids : list string) (stocks : list StockRec) :
  heap s !! l = Some ids ->
  NoDup ids ->
  create_stocks W wr l s = (Ok stocks, s1) ->
  forall w, w ∈ wr -> code w ∉ default [] (heap s1 !! l).
Proof.
  intros Hl Hnd Hrun w Hw.
  destruct (create_stocks_run W wr l s s1 ids stocks Hl Hrun)
    as (matched & derived & leftover & Hp & _ & ->).
  rewrite (stock_pass_NoDup _ _ _ _ _ _ Hp Hnd).
  rewrite set_list_lookup by (by eapply lookup_lt_Some). simpl.
  intros Hin. apply list_elem_of_filter in Hin as [Hno _]. apply Hno.
  change (codes wr) with (code <$> wr). by apply list_elem_of_fmap_2.
Qed.

(** On a catalog that repeats no identifier, [create_stocks] empties the
    caller's list of every identifier of the inventory: [main] then finds no
    row to price and posts no price batch, whatever else happens. *)
Lemma main_posts_no_price (W : world) (fuel : nat) (l : loc) (s : state)
    (ids : list string) (wr : list watch) :
  get_offer_ids W fuel initial = (Ok l, s) ->
  heap s !! l = Some ids ->
  NoDup ids ->
  download_api W = inr wr ->
  price_batches (sent (snd (main W fuel initial))) = [].
Proof.
  intros Hids Hl Hnd Hdl.
  assert (Hs : price_batches (sent s) = []).
  { pose proof (get_offer_ids_quiet W fuel initial) as Hq. by rewrite Hids in Hq. }
  destruct (credentials_dec W) as [Hcred|Hcred];
    [rewrite main_with_credentials by done | by rewrite main_without_credentials].
  unfold main_try. unfold bind at 1. rewrite Hids.
  unfold bind at 1. unfold download_stock. rewrite Hdl.
  unfold lift at 1. unfold ret at 1.
  unfold bind at 1.
  pose proof (create_stocks_sent W wr l s ids Hl) as Hsent1.
  destruct (create_stocks W wr l s) as [[stocks|e|] s1] eqn:Hstocks;
    simpl in Hsent1; [|simpl; congruence..].
  pose proof (create_stocks_leaves_none_known W wr l s s1 ids stocks Hl Hnd Hstocks) as Hgone.
  unfold bind at 1.
  assert (Hdiv : exists chunks, divide stocks 100 = inr chunks)
    by (eexists; by apply divide_pos).
  destruct Hdiv as [chunks ->].
  unfold lift at 1. unfold ret at 1.
  unfold bind at 1.
  destruct (for_each chunks _ () s1) as [[[]|e|] s2] eqn:Hup;
    apply update_stocks_loop_quiet in Hup as [Hheap Hsent].
  - unfold bind at 1. unfold create_prices.
    rewrite create_prices_rows_unknown by (by rewrite Hheap).
    unfold bind. rewrite divide_nil by lia. cbn. congruence.
  - simpl. congruence.
  - cbn. congruence.
Qed.

(** C2 (amended).  [create_stocks] works on the caller's list object: when the
    list has no repeated identifier, it holds after the call exactly the
    identifiers that no inventory row carries, in their original order, and
    nothing else of the state has changed.  [create_prices] leaves the state as
    it found it.  So in [main], where both calls receive the same list object,
    [create_prices] reads the depleted list: it finds no row to price and
    [main] posts no price batch. *)
Theorem create_stocks_depletes_offer_ids
    (W : world) (wr : list watch) (l : loc) (s s1 : state)
    (ids : list string) (stocks : list StockRec) :
  heap s !! l = Some ids ->
  NoDup ids ->
  create_stocks W wr l s = (Ok stocks, s1) ->
  s1 = set_list l (filter (fun id => id ∉ codes wr) ids) s /\
  (forall s2, snd (create_prices wr l s2) = s2) /\
  (forall s2, heap s2 !! l = heap s1 !! l -> create_prices wr l s2 = (Ok [], s2)) /\
  (forall W' fuel,
      get_offer_ids W' fuel initial = (Ok l, s) ->
      download_api W' = inr wr ->
      price_batches (sent (snd (main W' fuel initial))) = []).
Proof.
  intros Hl Hnd Hrun.
  destruct (create_stocks_run W wr l s s1 ids stocks Hl Hrun)
    as (matched & derived & leftover & Hp & _ & Hs1).
  rewrite (stock_pass_NoDup _ _ _ _ _ _ Hp Hnd) in Hs1.
  pose proof (create_stocks_leaves_none_known W wr l s s1 ids stocks Hl Hnd Hrun) as Hgone.
  split; [done|]. split; [intros s2; apply create_prices_rows_frame|]. split.
  - intros s2 Hs2. apply create_prices_rows_unknown. by rewrite Hs2.
  - intros W' fuel Hids Hdl. by eapply main_posts_no_price.
Qed.

Lemma create_stocks_depletes_offer_ids_witness :
  heap listed_small !! 0%nat = Some ["0"; "1"; "2"] /\
  NoDup ["0"; "1"; "2"] /\
  set_list 0%nat ["1"; "2"] listed_small =
    set_list 0%nat
      (filter (fun id => id ∉ codes [mk_watch "0" ">10" "5'990.00 руб."; mk_watch "7" "2" "10.00"])
              ["0"; "1"; "2"])
      listed_small /\
  price_batches (sent (snd (main world_small 2 initial))) = [].
Proof.
  assert (Hnd : NoDup ["0"; "1"; "2"]) by (apply (bool_decide_unpack _); vm_compute; exact I).
  destruct (create_stocks_depletes_offer_ids world_small
              [mk_watch "0" ">10" "5'990.00 руб."; mk_watch "7" "2" "10.00"]
              0%nat listed_small (set_list 0%nat ["1"; "2"] listed_small) ["0"; "1"; "2"]
              [{| offer_id := "0"; stock := 100 |}; {| offer_id := "1"; stock := 0 |};
               {| offer_id := "2"; stock := 0 |}])
    as (Hs1 & _ & _ & Hmain).
  - reflexivity.
  - exact Hnd.
  - vm_compute. reflexivity.
  - split; [reflexivity|]. split; [exact Hnd|]. split; [exact Hs1|].
    apply (Hmain world_small 2%nat); reflexivity.
Defined.

(** C2, as stated, fails when the caller's list repeats an identifier: only
    the first occurrence of "A" is removed, so "A", which matched an inventory
    row, is still in the list after the call. *)
Lemma create_stocks_duplicate_offer_ids :
  "A" ∈ codes [stock_row "A" "5"] /\
  create_stocks world_small [stock_row "A" "5"] 0%nat (holding ["A"; "A"]) =
    (Ok [{| offer_id := "A"; stock := 5 |}; {| offer_id := "A"; stock := 0 |}],
     holding ["A"]) /\
  heap (holding ["A"]) !! 0%nat = Some ["A"] /\
  ["A"] <> filter (fun id => id ∉ codes [stock_row "A" "5"]) ["A"; "A"].
Proof.
  split; [by apply list_elem_of_here|]. split; [by vm_compute|]. split; [done|].
  by vm_compute.
Qed.

(** ** The scenario of 1500 rows *)

Lemma ident_inj (a b : nat) : ident a = ident b -> a = b.
Proof.
  unfold ident. intros H.
  apply (f_equal NilZero.uint_of_string) in H.
  assert (Hnn : forall n, Nat.to_uint n <> Decimal.Nil).
  { intros n Hn. pose proof (f_equal Nat.of_uint Hn) as H0.
    rewrite DecimalNat.Unsigned.of_to in H0. simpl in H0. subst n. discriminate Hn. }
  rewrite !NilZero.usu in H by apply Hnn.
  injection H as H. by apply DecimalNat.Unsigned.to_uint_inj.
Qed.

Lemma code_mk_watch (id qty cost : string) : code (mk_watch id qty cost) = id.
Proof. reflexivity. Qed.

Lemma codes_inventory_1500 : codes inventory_1500 = map ident (seq 0 1500).
Proof.
  unfold codes, inventory_1500. rewrite map_map. apply map_ext.
  intros k. apply code_mk_watch.
Qed.

Lemma catalog_1500 :
  map product_offer_id (accumulated world_1500 2) = map ident (seq 0 1500).
Proof.
  cbn [accumulated world_1500 product_list_api result_items]. unfold products.
  rewrite app_nil_l, map_app, !map_map. cbn [product_offer_id].
  rewrite <- map_app. f_equal.
Qed.

(** C1.  With 1500 inventory rows whose distinct identifiers are exactly the
    marketplace's catalog, [main] posts 15 stock batches of 100 records and
    then no price batch at all, where the specification promises batches of
    900 and 600: [create_stocks] has emptied the list [create_prices] reads.
    [upload_prices], which fetches the identifiers afresh, posts the batches
    of 1000 and 500. *)
Theorem main_1500_rows (extra : nat) :
  length inventory_1500 = 1500%nat /\
  codes inventory_1500 = map product_offer_id (accumulated world_1500 2) /\
  NoDup (codes inventory_1500) /\
  fst (main world_1500 (2 + extra) initial) = Ok () /\
  map shape (sent (snd (main world_1500 (2 + extra) initial))) =
    [Listing; Listing] ++ repeat (StockBatch 100) 15 /\
  map shape (sent (snd (upload_prices world_1500 (2 + extra) inventory_1500 initial))) =
    [Listing; Listing; PriceBatch 1000; PriceBatch 500].
Proof.
  split; [unfold inventory_1500; by rewrite length_map, length_seq|].
  split; [by rewrite codes_inventory_1500, catalog_1500|].
  split.
  { rewrite codes_inventory_1500. change (map ident ?l) with (ident <$> l).
    apply NoDup_fmap_2; [intros a b; apply ident_inj | apply NoDup_seq]. }
  split; [vm_compute; reflexivity|].
  split; vm_compute; reflexivity.
Qed.

(** * Further properties of the code *)

(** ** The batch splitter, continued *)

(** X1.  A chunk size of zero makes [divide] raise [ValueError]; a negative
    one makes it produce no chunk, whatever the list holds. *)
Theorem divide_bad_size {A} (lst : list A) (n : Z) :
  n <= 0 ->
  divide lst n = if n =? 0 then inl ValueError else inr [].
Proof.
  intros Hn. unfold divide, range0.
  destruct (Z.eqb_spec n 0) as [->|Hne]; [done|].
  destruct (Z.ltb_spec n 0) as [_|?]; [done | lia].
Qed.

Lemma divide_bad_size_witness :
  -3 <= 0 /\ divide [1; 2; 3] (-3) = (if -3 =? 0 then inl ValueError else inr []).
Proof. split; [lia|]. apply (divide_bad_size [1; 2; 3] (-3)). lia. Defined.

(** X2.  For a positive size the number of chunks is the length divided by
    the size, rounded up; no chunk is empty or longer than the size; and the
    [j]-th element of the [i]-th chunk is the element [i * n + j] of the
    list. *)
Theorem divide_index {A} (s : list A) (n : Z) (chunks : list (list A)) :
  0 < n ->
  divide s n = inr chunks ->
  length chunks = ((length s + Z.to_nat n - 1) / Z.to_nat n)%nat /\
  forall i c,
    chunks !! i = Some c ->
    (1 <= length c <= Z.to_nat n)%nat /\
    forall j, (j < Z.to_nat n)%nat -> c !! j = s !! (i * Z.to_nat n + j)%nat.
Proof.
  intros Hn. rewrite divide_pos by done. intros [= <-].
  set (n' := Z.to_nat n). set (m := ((length s + n' - 1) / n')%nat).
  assert (Hn' : (0 < n')%nat) by lia.
  rewrite length_map, length_seq. split; [done|].
  intros i c. change (map ?f ?l) with (f <$> l). rewrite list_lookup_fmap.
  destruct (seq 0 m !! i) as [k|] eqn:Hk; [|done].
  apply lookup_seq in Hk as [-> Hi]. simpl. intros [= <-].
  destruct (chunk_count_bounds (length s) n' Hn') as [_ Hlow]. fold m in Hlow.
  assert (Hlen : (0 < length s)%nat).
  { destruct (length s) eqn:E; [|lia]. subst m. rewrite Nat.div_small in Hi; lia. }
  destruct (Hlow Hlen) as [_ Hlast].
  split.
  - rewrite length_take, length_drop. nia.
  - intros j Hj. rewrite lookup_take_lt by done. by rewrite lookup_drop.
Qed.

Lemma divide_index_witness :
  0 < 2 /\
  length [[1; 2]; [3; 4]; [5]] = ((length [1; 2; 3; 4; 5] + Z.to_nat 2 - 1) / Z.to_nat 2)%nat /\
  forall i c,
    [[1; 2]; [3; 4]; [5]] !! i = Some c ->
    (1 <= length c <= Z.to_nat 2)%nat /\
    forall j, (j < Z.to_nat 2)%nat -> c !! j = [1; 2; 3; 4; 5] !! (i * Z.to_nat 2 + j)%nat.
Proof.
  split; [lia|].
  apply (divide_index [1; 2; 3; 4; 5] 2 [[1; 2]; [3; 4]; [5]]); [lia | reflexivity].
Defined.

(** ** [str.split] and the price normaliser, continued *)

Lemma split_cons_other (sep c : ascii) (s : string) :
  c <> sep ->
  exists piece pieces,
    split sep s = piece :: pieces /\ split sep (String c s) = String c piece :: pieces.
Proof.
  intros Hne. simpl. destruct (Ascii.eqb_spec c sep) as [?|_]; [done|].
  destruct (split sep s) as [|piece pieces] eqn:Hs; [|by eexists _, _].
  exfalso. destruct s as [|c' s]; simpl in Hs; [done|].
  destruct (Ascii.eqb c' sep); [done|]. by destruct (split sep s).
Qed.

Lemma split_cons_sep (sep : ascii) (s : string) :
  split sep (String sep s) = EmptyString :: split sep s.
Proof. simpl. by rewrite Ascii.eqb_refl. Qed.

Lemma split_not_nil (sep : ascii) (s : string) : split sep s <> [].
Proof.
  destruct s as [|c s]; [done|]. destruct (decide (c = sep)) as [->|Hne].
  - by rewrite split_cons_sep.
  - by destruct (split_cons_other sep c s Hne) as (piece & pieces & _ & ->).
Qed.

(** X3.  [split] loses nothing: joining the pieces with the separator gives
    the string back, no piece contains the separator, and there is one piece
    more than there are separators. *)
Theorem split_join (sep : ascii) (s : string) :
  String.concat (String sep EmptyString) (split sep s) = s /\
  Forall (fun piece => occurrences sep piece = 0%nat) (split sep s) /\
  length (split sep s) = S (occurrences sep s).
Proof.
  induction s as [|c s (IHjoin & IHfree & IHlen)]; [by repeat constructor|].
  destruct (decide (c = sep)) as [->|Hne].
  - rewrite split_cons_sep. cbn [occurrences]. rewrite Ascii.eqb_refl.
    split; [|split].
    + pose proof (split_not_nil sep s) as Hnn. cbn [String.concat].
      destruct (split sep s) as [|piece pieces]; [done|].
      cbn [String.concat String.append] in *. by rewrite IHjoin.
    + by constructor.
    + simpl. by rewrite IHlen.
  - destruct (split_cons_other sep c s Hne) as (piece & pieces & Hs & ->).
    rewrite Hs in IHjoin, IHfree, IHlen. cbn [occurrences].
    destruct (Ascii.eqb_spec c sep) as [?|_]; [done|].
    apply Forall_cons in IHfree as [Hpiece Hpieces].
    split; [|split].
    + destruct pieces as [|piece' pieces]; [simpl in *; by rewrite IHjoin|].
      change (String.concat (String sep EmptyString) (String c piece :: piece' :: pieces))
        with (String c (String.concat (String sep EmptyString) (piece :: piece' :: pieces))).
      by rewrite IHjoin.
    + constructor; [|done]. cbn [occurrences].
      destruct (Ascii.eqb_spec c sep) as [?|_]; [done|]. by rewrite Hpiece.
    + simpl in *. by rewrite IHlen.
Qed.

Lemma split_head_append (a b : string) :
  hd EmptyString (split "." (String.append a (String "." b))) =
  hd EmptyString (split "." a).
Proof.
  induction a as [|c a IH]; [done|].
  change (String.append (String c a) (String "." b))
    with (String c (String.append a (String "." b))).
  destruct (decide (c = "."%char)) as [->|Hne].
  - by rewrite !split_cons_sep.
  - destruct (split_cons_other "." c a Hne) as (p1 & ps1 & Hs1 & ->).
    destruct (split_cons_other "." c (String.append a (String "." b)) Hne)
      as (p2 & ps2 & Hs2 & ->).
    rewrite Hs1, Hs2 in IH. simpl in *. by rewrite IH.
Qed.

(** X4.  Whatever follows the first period has no influence on the
    normalised price. *)
Theorem price_conversion_cut (a b : string) :
  price_conversion (String.append a (String "." b)) = price_conversion a.
Proof. unfold price_conversion. by rewrite split_head_append. Qed.

Lemma is_digit_not_period (c : ascii) : is_digit c = true -> c <> "."%char.
Proof. intros Hc ->. by vm_compute in Hc. Qed.

Lemma price_conversion_of_digits (s : string) :
  Forall (fun c => is_digit c = true) (list_ascii_of_string s) ->
  price_conversion s = s.
Proof.
  unfold price_conversion.
  induction s as [|c s IH]; [done|]. cbn [list_ascii_of_string].
  intros Hs. apply Forall_cons in Hs as [Hc Hs]. specialize (IH Hs).
  destruct (split_cons_other "." c s (is_digit_not_period c Hc))
    as (piece & pieces & Hsplit & ->).
  rewrite Hsplit in IH. simpl in *. by rewrite Hc, IH.
Qed.

Lemma re_sub_non_digits_digits (s : string) :
  Forall (fun c => is_digit c = true) (list_ascii_of_string (re_sub_non_digits s)).
Proof.
  induction s as [|c s IH]; [constructor|]. simpl.
  destruct (is_digit c) eqn:Hc; [|done]. by constructor.
Qed.

(** X5.  A string of ASCII digits is its own normalised price. *)
Theorem price_conversion_digits_unchanged (p : string) :
  Forall (fun c => c ∈ ascii_digits) (list_ascii_of_string p) ->
  price_conversion p = p.
Proof.
  intros Hp. apply price_conversion_of_digits.
  eapply Forall_impl; [exact Hp|]. intros c Hc. by apply is_digit_ascii_digits.
Qed.

Lemma price_conversion_digits_unchanged_witness :
  Forall (fun c => c ∈ ascii_digits) (list_ascii_of_string "5990") /\
  price_conversion "5990" = "5990".
Proof.
  assert (H : Forall (fun c => c ∈ ascii_digits) (list_ascii_of_string "5990")).
  { repeat (constructor; [apply is_digit_ascii_digits; reflexivity|]). constructor. }
  split; [exact H|]. apply (price_conversion_digits_unchanged "5990" H).
Defined.

(** X6.  Normalising a normalised price changes nothing. *)
Theorem price_conversion_idempotent (p : string) :
  price_conversion (price_conversion p) = price_conversion p.
Proof.
  apply price_conversion_of_digits. unfold price_conversion.
  apply re_sub_non_digits_digits.
Qed.

(** ** [create_stocks], continued *)

(** X7.  When [create_stocks] returns, the identifiers of its records are
    the catalog identifiers, each as often as the catalog lists it: there are
    as many records as catalog entries, whatever the inventory holds. *)
Theorem create_stocks_covers_catalog
    (W : world) (wr : list watch) (l : loc) (s s' : state) (ids : list string) (stocks : list StockRec) :
  heap s !! l = Some ids ->
  create_stocks W wr l s = (Ok stocks, s') ->
  map offer_id stocks ≡ₚ ids /\ length stocks = length ids.
Proof.
  intros Hl Hrun.
  destruct (create_stocks_run W wr l s s' ids stocks Hl Hrun)
    as (matched & derived & leftover & Hp & -> & _).
  assert (Hperm : map offer_id (derived ++ map zero_stock leftover) ≡ₚ ids).
  { rewrite map_app, map_map. simpl. rewrite map_id.
    by eapply stock_pass_Permutation. }
  split; [done|]. rewrite <- (length_map offer_id). by rewrite Hperm.
Qed.

Lemma create_stocks_covers_catalog_witness :
  heap (holding ["A"; "B"; "A"]) !! 0%nat = Some ["A"; "B"; "A"] /\
  map offer_id [{| offer_id := "A"; stock := 7 |}; {| offer_id := "B"; stock := 0 |};
                {| offer_id := "A"; stock := 0 |}] ≡ₚ ["A"; "B"; "A"] /\
  length [{| offer_id := "A"; stock := 7 |}; {| offer_id := "B"; stock := 0 |};
          {| offer_id := "A"; stock := 0 |}] = length ["A"; "B"; "A"].
Proof.
  split; [reflexivity|].
  apply (create_stocks_covers_catalog world_small [stock_row "A" "7"; stock_row "Z" "oops"] 0%nat
           (holding ["A"; "B"; "A"]) (holding ["B"; "A"]) ["A"; "B"; "A"]).
  - reflexivity.
  - reflexivity.
Defined.

Lemma create_stocks_rows_known (W : world) (l : loc) (ids0 : list string) (wr : list watch) :
  forall (acc : list StockRec) (s : state) (ids : list string),
    heap s !! l = Some ids ->
    ids ⊆ ids0 ->
    for_each wr (create_stocks_row W l) acc s =
    for_each (filter (fun w => code w ∈ ids0) wr) (create_stocks_row W l) acc s.
Proof.
  induction wr as [|w wr IH]; intros acc s ids Hl Hsub; [done|].
  rewrite filter_cons. destruct (decide (code w ∈ ids0)) as [Hin|Hout].
  - simpl. unfold bind. rewrite (create_stocks_row_run W l acc w s ids Hl).
    destruct (py_in (code w) ids); [|by eapply IH].
    destruct (resolve_quantity W (quantity w)) as [e|z]; [done|].
    destruct (remove_first (code w) ids) as [ids1|] eqn:Hrm; [|done].
    apply (IH _ _ ids1).
    + apply set_list_lookup. by eapply lookup_lt_Some.
    + etrans; [|exact Hsub]. apply sublist_subseteq. by eapply remove_first_sublist.
  - simpl. unfold bind at 1. rewrite (create_stocks_row_run W l acc w s ids Hl).
    rewrite (proj2 (py_in_false _ _)) by (intros Hin; by apply Hout, Hsub).
    by eapply IH.
Qed.

(** X8.  Inventory rows whose identifier the catalog does not list have no
    influence on [create_stocks]: neither on its records, nor on the list it
    leaves behind, nor on whether it raises. *)
Theorem create_stocks_ignores_unknown_rows
    (W : world) (wr : list watch) (l : loc) (s : state) (ids : list string) :
  heap s !! l = Some ids ->
  create_stocks W wr l s = create_stocks W (filter (fun w => code w ∈ ids) wr) l s.
Proof.
  intros Hl. unfold create_stocks, bind at 1 3.
  by rewrite (create_stocks_rows_known W l ids wr [] s ids Hl).
Qed.

Lemma create_stocks_ignores_unknown_rows_witness :
  heap (holding ["A"; "B"]) !! 0%nat = Some ["A"; "B"] /\
  create_stocks world_small [stock_row "Z" "oops"; stock_row "A" "7"] 0%nat
    (holding ["A"; "B"]) =
  create_stocks world_small
    (filter (fun w => code w ∈ ["A"; "B"]) [stock_row "Z" "oops"; stock_row "A" "7"])
    0%nat (holding ["A"; "B"]).
Proof.
  split; [reflexivity|].
  apply (create_stocks_ignores_unknown_rows world_small
           [stock_row "Z" "oops"; stock_row "A" "7"] 0%nat (holding ["A"; "B"]) ["A"; "B"]).
  reflexivity.
Defined.

Lemma for_each_app {A B} (l1 l2 : list A) (body : B -> A -> M B) (acc : B) (s : state) :
  for_each (l1 ++ l2) body acc s =
  bind (for_each l1 body acc) (for_each l2 body) s.
Proof.
  revert acc s. induction l1 as [|x l1 IH]; intros acc s; simpl.
  - done.
  - unfold bind. destruct (body acc x s) as [[acc'|e|] s1]; [|done..].
    by rewrite IH.
Qed.

(** X9.  [create_stocks] undoes nothing when it fails.  If the inventory up
    to some row is processed without error, and that row is known to what is
    left of the catalog but its quantity is neither [">10"] nor ["1"] nor
    accepted by [int], whatever the interpreter's [int] accepts, then the
    call raises the exception of [int], and the list object is left as the
    rows before had left it, the identifiers they matched removed. *)
Theorem create_stocks_fails_without_rollback
    (W : world) (before after : list watch) (w : watch) (l : loc) (s s1 : state)
    (ids : list string) (stocks : list StockRec) (e : exn) :
  heap s !! l = Some ids ->
  create_stocks W before l s = (Ok stocks, s1) ->
  code w ∈ default [] (heap s1 !! l) ->
  str (quantity w) <> ">10" ->
  str (quantity w) <> "1" ->
  int W (quantity w) = inl e ->
  create_stocks W (before ++ w :: after) l s = (Raise e, s1).
Proof.
  intros Hl Hrun Hknown H10 H1 Hint.
  unfold create_stocks, bind at 1 in Hrun.
  destruct (for_each before (create_stocks_row W l) [] s) as [[acc|e'|] s0] eqn:Hpre; [|done..].
  unfold bind, deref in Hrun. rewrite zero_loop_run in Hrun.
  injection Hrun as _ ->.
  destruct (create_stocks_rows_run W l before [] s ids acc s1 Hl Hpre)
    as (matched & derived & leftover & _ & _ & Hs1).
  assert (Hl1 : heap s1 !! l = Some leftover).
  { rewrite Hs1. apply set_list_lookup. by eapply lookup_lt_Some. }
  rewrite Hl1 in Hknown. simpl in Hknown.
  unfold create_stocks, bind at 1. rewrite for_each_app. unfold bind at 1.
  rewrite Hpre. simpl. unfold bind at 1.
  rewrite (create_stocks_row_run W l acc w s1 leftover Hl1).
  rewrite (proj2 (py_in_true _ _) Hknown).
  unfold resolve_quantity.
  rewrite (proj2 (String.eqb_neq _ _) H10), (proj2 (String.eqb_neq _ _) H1), Hint.
  done.
Qed.

Lemma create_stocks_fails_without_rollback_witness :
  heap (holding ["A"; "B"; "C"]) !! 0%nat = Some ["A"; "B"; "C"] /\
  create_stocks world_small
    ([stock_row "A" "7"] ++ stock_row "B" "2.5" :: [stock_row "C" "2"]) 0%nat
    (holding ["A"; "B"; "C"]) = (Raise ValueError, holding ["B"; "C"]).
Proof.
  split; [reflexivity|].
  apply (create_stocks_fails_without_rollback world_small
           [stock_row "A" "7"] [stock_row "C" "2"] (stock_row "B" "2.5") 0%nat
           (holding ["A"; "B"; "C"]) (holding ["B"; "C"]) ["A"; "B"; "C"]
           [{| offer_id := "A"; stock := 7 |}; {| offer_id := "B"; stock := 0 |};
            {| offer_id := "C"; stock := 0 |}] ValueError).
  - reflexivity.
  - reflexivity.
  - apply list_elem_of_here.
  - discriminate.
  - discriminate.
  - reflexivity.
Defined.

Lemma to_int_not_nil (z : Z) :
  Z.to_int z <> Decimal.Pos Decimal.Nil /\ Z.to_int z <> Decimal.Neg Decimal.Nil.
Proof.
  destruct z as [|p|p]; simpl; split; try discriminate;
    intros [= H]; by apply DecimalPos.Unsigned.to_uint_nonnil in H.
Qed.

Lemma str_PyInt_parse (z : Z) :
  NilZero.int_of_string (str (PyInt z)) = Some (Z.to_int z).
Proof. simpl. apply NilZero.isi; apply to_int_not_nil. Qed.

Lemma str_PyInt_one (z : Z) : str (PyInt z) = "1" <-> z = 1.
Proof.
  split; [|by intros ->]. intros H.
  apply (f_equal NilZero.int_of_string) in H. rewrite str_PyInt_parse in H.
  injection H as H. apply (f_equal Z.of_int) in H. by rewrite DecimalZ.of_to in H.
Qed.

Lemma str_PyInt_not_many (z : Z) : str (PyInt z) <> ">10".
Proof.
  intros H. apply (f_equal NilZero.int_of_string) in H.
  rewrite str_PyInt_parse in H. discriminate H.
Qed.

(** X10.  A quantity cell that holds an integer, not a string, is resolved
    through its decimal numeral: the integer 1 gives stock 0, every other
    integer, negative ones included, is the stock as it stands. *)
Theorem create_stocks_integer_cells
    (W : world) (wr : list watch) (l : loc) (s s' : state) (ids : list string) (stocks : list StockRec) :
  heap s !! l = Some ids ->
  create_stocks W wr l s = (Ok stocks, s') ->
  exists matched derived leftover,
    stocks = derived ++ map zero_stock leftover /\
    sublist matched wr /\
    (forall w, w ∈ wr -> code w ∈ ids -> code w ∈ codes matched) /\
    Forall2 (fun w r => offer_id r = code w /\
                        forall z, quantity w = PyInt z ->
                                  stock r = if z =? 1 then 0 else z)
            matched derived.
Proof.
  intros Hl Hrun.
  destruct (create_stocks_run W wr l s s' ids stocks Hl Hrun)
    as (matched & derived & leftover & Hp & -> & _).
  exists matched, derived, leftover. split; [done|].
  split; [by eapply stock_pass_matched_sublist|].
  split; [intros w Hw Hid; by apply (stock_pass_first_match _ _ _ _ _ _ w Hp)|].
  eapply Forall2_impl; [by eapply stock_pass_derived|].
  intros w r [Hid Hpol]. split; [done|]. intros z Hz. rewrite Hz in Hpol.
  destruct Hpol as [[H _]|[[H ->]|(_ & H1 & Hint)]].
  - by apply str_PyInt_not_many in H.
  - apply str_PyInt_one in H. by subst z.
  - simpl in Hint. injection Hint as <-.
    destruct (Z.eqb_spec z 1) as [->|_]; [|done]. by destruct H1.
Qed.

Lemma create_stocks_integer_cells_witness :
  heap (holding ["A"; "B"]) !! 0%nat = Some ["A"; "B"] /\
  exists matched derived leftover,
    [{| offer_id := "A"; stock := 0 |}; {| offer_id := "B"; stock := -4 |}] =
      derived ++ map zero_stock leftover /\
    sublist matched [<["Код" := PyStr "A"]> (<["Количество" := PyInt 1]> ∅);
                     <["Код" := PyStr "B"]> (<["Количество" := PyInt (-4)]> ∅)] /\
    (forall w,
        w ∈ [<["Код" := PyStr "A"]> (<["Количество" := PyInt 1]> ∅);
             <["Код" := PyStr "B"]> (<["Количество" := PyInt (-4)]> ∅)] ->
        code w ∈ ["A"; "B"] -> code w ∈ codes matched) /\
    Forall2 (fun w r => offer_id r = code w /\
                        forall z, quantity w = PyInt z ->
                                  stock r = if z =? 1 then 0 else z)
            matched derived.
Proof.
  split; [reflexivity|].
  apply (create_stocks_integer_cells world_small
           [<["Код" := PyStr "A"]> (<["Количество" := PyInt 1]> ∅);
            <["Код" := PyStr "B"]> (<["Количество" := PyInt (-4)]> ∅)]
           0%nat (holding ["A"; "B"]) (holding []) ["A"; "B"]).
  - reflexivity.
  - reflexivity.
Defined.

(** ** [create_prices], continued *)

(** X11.  When [create_prices] returns, its records are those of the
    inventory rows the catalog knows, one for one and in inventory order, each
    with the row's identifier and the normalised form of the row's price
    string; the state is as before. *)
Theorem create_prices_in_order
    (wr : list watch) (l : loc) (s s' : state) (ids : list string) (prices : list PriceRec) :
  heap s !! l = Some ids ->
  create_prices wr l s = (Ok prices, s') ->
  s' = s /\
  map price_offer_id prices = filter (fun id => id ∈ ids) (codes wr) /\
  Forall2 (fun w r =>
             exists p, get w "Цена" = PyStr p /\
                       r = {| auto_action_enabled := "UNKNOWN";
                              currency_code := "RUB";
                              price_offer_id := code w;
                              old_price := "0";
                              price := price_conversion p |})
          (filter (fun w => code w ∈ ids) wr) prices.
Proof.
  intros Hl Hrun.
  pose proof (create_prices_rows_frame l wr [] s) as Hframe.
  unfold create_prices in Hrun. rewrite Hrun in Hframe. simpl in Hframe.
  apply (create_prices_rows_run l wr [] s ids) in Hrun as (recs & -> & Hrecs); [|done].
  simpl. split; [done|]. split.
  - clear Hframe. induction wr as [|w wr IH] in recs, Hrecs |- *.
    + by inversion Hrecs.
    + simpl. rewrite filter_cons in Hrecs.
      rewrite (filter_cons (fun id => id ∈ ids)).
      destruct (decide (code w ∈ ids)); [|by apply IH].
      inversion Hrecs as [|? r ? recs' (p & _ & ->) Hrest]; subst.
      simpl. f_equal. by apply IH.
  - eapply Forall2_impl; [exact Hrecs|].
    intros w r (p & Hp & ->). unfold price_conversion_val in Hp.
    destruct (get w "Цена") as [|q|z] eqn:Hget; [done | | done].
    injection Hp as <-. by exists q.
Qed.

Lemma create_prices_in_order_witness :
  heap (holding ["B"; "A"]) !! 0%nat = Some ["B"; "A"] /\
  holding ["B"; "A"] = holding ["B"; "A"] /\
  map price_offer_id
    [price_record (mk_watch "A" "2" "5'990.00 руб.") "5990";
     price_record (mk_watch "B" "3" "10.00") "10"] =
  filter (fun id => id ∈ ["B"; "A"])
    (codes [mk_watch "A" "2" "5'990.00 руб."; mk_watch "Z" "1" "7.00";
            mk_watch "B" "3" "10.00"]) /\
  Forall2 (fun w r =>
             exists p, get w "Цена" = PyStr p /\
                       r = {| auto_action_enabled := "UNKNOWN";
                              currency_code := "RUB";
                              price_offer_id := code w;
                              old_price := "0";
                              price := price_conversion p |})
          (filter (fun w => code w ∈ ["B"; "A"])
             [mk_watch "A" "2" "5'990.00 руб."; mk_watch "Z" "1" "7.00";
              mk_watch "B" "3" "10.00"])
          [price_record (mk_watch "A" "2" "5'990.00 руб.") "5990";
           price_record (mk_watch "B" "3" "10.00") "10"].
Proof.
  split; [reflexivity|].
  apply (create_prices_in_order
           [mk_watch "A" "2" "5'990.00 руб."; mk_watch "Z" "1" "7.00"; mk_watch "B" "3" "10.00"]
           0%nat (holding ["B"; "A"]) (holding ["B"; "A"]) ["B"; "A"]).
  - reflexivity.
  - vm_compute. reflexivity.
Defined.

Lemma create_prices_rows_outcome (l : loc) (wr : list watch) :
  forall (acc : list PriceRec) (s : state) (ids : list string),
    heap s !! l = Some ids ->
    (Forall (fun w => code w ∈ ids -> exists p, get w "Цена" = PyStr p) wr /\
     exists prices, for_each wr (create_prices_row l) acc s = (Ok prices, s)) \/
    (Exists (fun w => code w ∈ ids /\ forall p, get w "Цена" <> PyStr p) wr /\
     for_each wr (create_prices_row l) acc s = (Raise AttributeError, s)).
Proof.
  induction wr as [|w wr IH]; intros acc s ids Hl; simpl.
  - left. split; [constructor | by eexists].
  - unfold bind. rewrite create_prices_row_run, Hl. simpl.
    destruct (py_in (code w) ids) eqn:Hin.
    + apply py_in_true in Hin.
      destruct (get w "Цена") as [|p|z] eqn:Hget; simpl.
      * right. split; [|done]. apply Exists_cons_hd.
        split; [done|]. intros q Hq. simpl in Hq. congruence.
      * destruct (IH (acc ++ [price_record w (price_conversion p)]) s ids Hl)
          as [[Hall Hok]|[Hex Hraise]]; [left | right].
        -- split; [|done]. constructor; [|done]. intros _. by exists p.
        -- split; [by apply Exists_cons_tl | done].
      * right. split; [|done]. apply Exists_cons_hd.
        split; [done|]. intros q Hq. simpl in Hq. congruence.
    + apply py_in_false in Hin.
      destruct (IH acc s ids Hl) as [[Hall Hok]|[Hex Hraise]]; [left | right].
      * split; [|done]. by constructor.
      * split; [by apply Exists_cons_tl | done].
Qed.

(** X12.  [create_prices] raises exactly when some inventory row the catalog
    knows has a price cell that is not a string (an integer, or no cell at
    all), and then it raises [AttributeError]; the price cells of the other
    rows are never looked at.  In both cases the state is as before. *)
Theorem create_prices_outcome
    (wr : list watch) (l : loc) (s : state) (ids : list string) :
  heap s !! l = Some ids ->
  (Forall (fun w => code w ∈ ids -> exists p, get w "Цена" = PyStr p) wr /\
   exists prices, create_prices wr l s = (Ok prices, s)) \/
  (Exists (fun w => code w ∈ ids /\ forall p, get w "Цена" <> PyStr p) wr /\
   create_prices wr l s = (Raise AttributeError, s)).
Proof. intros Hl. by apply create_prices_rows_outcome. Qed.

Lemma create_prices_outcome_witness :
  heap (holding ["A"]) !! 0%nat = Some ["A"] /\
  create_prices [<["Код" := PyStr "Z"]> ∅; <["Код" := PyStr "A"]> (<["Цена" := PyInt 5990]> ∅)]
    0%nat (holding ["A"]) = (Raise AttributeError, holding ["A"]).
Proof.
  split; [reflexivity|].
  destruct (create_prices_outcome
              [<["Код" := PyStr "Z"]> ∅; <["Код" := PyStr "A"]> (<["Цена" := PyInt 5990]> ∅)]
              0%nat (holding ["A"]) ["A"] eq_refl) as [[_ [prices Hok]]|[_ Hraise]].
  - vm_compute in Hok. discriminate Hok.
  - exact Hraise.
Defined.

(** ** The pagination loop, continued *)

Lemma get_offer_ids_loop_raises (W : world) (d : nat) :
  forall (last_id : string) (s : state) (fuel : nat) (e : exn),
    (forall j, (listed s <= j < listed s + d)%nat -> answered W j /\ ~ settles W j) ->
    product_list_api W (listed s + d) = inl e ->
    (d < fuel)%nat ->
    exists s',
      get_offer_ids_loop W fuel last_id (accumulated W (listed s)) s = (Raise e, s') /\
      heap s' = heap s /\ listed s' = S (listed s + d).
Proof.
  induction d as [|d IH]; intros last_id s fuel e Hpages Herr Hfuel;
    (destruct fuel as [|fuel]; [lia|]); simpl;
    unfold bind at 1; rewrite get_product_list_run.
  - rewrite Nat.add_0_r in Herr. rewrite Herr. eexists. split; [done|]. simpl.
    split; [done|]. by rewrite Nat.add_0_r.
  - destruct (Hpages (listed s) ltac:(lia)) as [[p Hp] Hno]. rewrite Hp.
    rewrite (settles_answered W _ p Hp) in Hno.
    destruct (Z.eqb_spec (result_total p)
                (Z.of_nat (length (accumulated W (listed s) ++ result_items p)))) as [?|_];
      [done|].
    pose (s1 := {| heap := heap s; sent := sent s ++ [ListProducts last_id];
                   listed := S (listed s); stdout := stdout s |}).
    assert (Hacc : accumulated W (listed s) ++ result_items p = accumulated W (listed s1))
      by (simpl; by rewrite Hp).
    rewrite Hacc.
    destruct (IH (result_last_id p) s1 fuel e) as (s' & Hrun & Hheap & Hl); simpl.
    + intros j Hj. apply Hpages. lia.
    + by replace (S (listed s + d)) with (listed s + S d)%nat by lia.
    + lia.
    + exists s'. split; [done|]. split; [done|]. simpl in Hl. lia.
Qed.

Lemma get_offer_ids_loop_log (W : world) (fuel : nat) :
  forall (last_id : string) (product_list : list product) (s : state),
    let s' := snd (get_offer_ids_loop W fuel last_id product_list s) in
    (listed s <= listed s')%nat /\
    sent s' =
      sent s ++ map ListProducts (cursors_from W last_id (listed s) (listed s' - listed s)).
Proof.
  induction fuel as [|fuel IH]; intros last_id product_list s; simpl.
  - rewrite Nat.sub_diag. simpl. by rewrite app_nil_r.
  - unfold bind at 1 2 3. rewrite get_product_list_run.
    destruct (product_list_api W (listed s)) as [e|p] eqn:Hp; simpl.
    { replace (S (listed s) - listed s)%nat with 1%nat by lia. split; [lia | done]. }
    destruct (result_total p =? _); simpl.
    { replace (S (listed s) - listed s)%nat with 1%nat by lia. split; [lia | done]. }
    destruct (IH (result_last_id p) (product_list ++ result_items p)
                {| heap := heap s; sent := sent s ++ [ListProducts last_id];
                   listed := S (listed s); stdout := stdout s |}) as [Hle Hsent].
    simpl in Hle, Hsent. split; [lia|]. rewrite Hsent, <- app_assoc. f_equal.
    set (s' := snd (get_offer_ids_loop W fuel _ _ _)) in *.
    replace (listed s' - listed s)%nat with (S (listed s' - S (listed s))) by lia.
    simpl. f_equal.
    destruct (listed s' - S (listed s))%nat as [|m]; [done|].
    simpl. unfold answer_last_id at 2. by rewrite Hp.
Qed.

(** X13.  When a listing request is refused before any page has settled the
    count, [get_offer_ids] raises the exception of that request, after one
    request per page and without having created its list of identifiers. *)
Theorem get_offer_ids_propagates_failure (W : world) (k fuel : nat) (e : exn) :
  (forall j, (j < k)%nat -> answered W j /\ ~ settles W j) ->
  product_list_api W k = inl e ->
  (k < fuel)%nat ->
  exists s',
    get_offer_ids W fuel initial = (Raise e, s') /\
    heap s' = [] /\ listed s' = S k /\ length (sent s') = S k.
Proof.
  intros Hpages Herr Hfuel. rewrite get_offer_ids_run.
  destruct (get_offer_ids_loop_raises W k "" initial fuel e) as (s' & Hrun & Hheap & Hl);
    [intros j Hj; apply Hpages; simpl in Hj; lia | done | done |].
  simpl in Hrun. rewrite Hrun. exists s'. split; [done|]. split; [done|].
  split; [done|].
  destruct (get_offer_ids_loop_log W fuel "" [] initial) as [_ Hsent].
  rewrite Hrun in Hsent. simpl in Hsent. rewrite Hsent, Hl. simpl.
  by rewrite !length_map, length_seq.
Qed.

Lemma get_offer_ids_propagates_failure_witness :
  exists s',
    get_offer_ids world_broken_listing 5 initial = (Raise HTTPError, s') /\
    heap s' = [] /\ listed s' = 2%nat /\ length (sent s') = 2%nat.
Proof.
  apply (get_offer_ids_propagates_failure world_broken_listing 1%nat 5%nat HTTPError).
  - intros j Hj. assert (j = 0%nat) as -> by lia. split; [by eexists|].
    intros (p & [= <-] & Htot). simpl in Htot. lia.
  - reflexivity.
  - lia.
Defined.

(** X14.  Each listing request after the first carries the ["last_id"] of the
    answer before it: when [get_offer_ids] returns, its requests are, in
    order, the cursor [""] and then the ["last_id"] of every page but the
    last. *)
Theorem get_offer_ids_cursor_chain (W : world) (fuel : nat) (l : loc) (s' : state) :
  get_offer_ids W fuel initial = (Ok l, s') ->
  exists k, listed s' = S k /\ sent s' = map ListProducts (cursors W k).
Proof.
  rewrite get_offer_ids_run.
  destruct (get_offer_ids_loop_log W fuel "" [] initial) as [_ Hsent].
  destruct (get_offer_ids_loop W fuel "" [] initial) as [[pl|e|] s1] eqn:Hloop; [|done..].
  apply (get_offer_ids_loop_returns W fuel "" initial) in Hloop
    as (k & _ & _ & _ & _ & _ & _ & Hl).
  simpl in Hsent. intros [= <- <-]. simpl. exists k. split; [done|].
  rewrite Hsent, Hl. by rewrite Nat.sub_0_r.
Qed.

Lemma get_offer_ids_cursor_chain_witness :
  exists k,
    listed listed_small = S k /\ sent listed_small = map ListProducts (cursors world_small k).
Proof.
  apply (get_offer_ids_cursor_chain world_small 2%nat 0%nat listed_small).
  vm_compute. reflexivity.
Defined.

Lemma get_offer_ids_loop_frame (W : world) (fuel : nat) :
  forall (last_id : string) (product_list : list product) (s : state),
    heap (snd (get_offer_ids_loop W fuel last_id product_list s)) = heap s /\
    stdout (snd (get_offer_ids_loop W fuel last_id product_list s)) = stdout s.
Proof.
  induction fuel as [|fuel IH]; intros last_id product_list s; simpl; [done|].
  unfold bind at 1 2. rewrite get_product_list_run.
  destruct (product_list_api W (listed s)) as [e|p]; simpl; [done|].
  destruct (result_total p =? _); simpl; [done|].
  by destruct (IH (result_last_id p) (product_list ++ result_items p)
                 {| heap := heap s; sent := sent s ++ [ListProducts last_id];
                    listed := S (listed s); stdout := stdout s |}) as [-> ->].
Qed.

(** X15.  Every call of [get_offer_ids] that returns has created a new list
    object: the list objects that existed before are all still there,
    unchanged, and nothing has been printed. *)
Theorem get_offer_ids_fresh_list (W : world) (fuel : nat) (s s' : state) (l : loc) :
  get_offer_ids W fuel s = (Ok l, s') ->
  l = length (heap s) /\
  (exists ids, heap s' = heap s ++ [ids]) /\
  stdout s' = stdout s.
Proof.
  rewrite get_offer_ids_run.
  destruct (get_offer_ids_loop_frame W fuel "" [] s) as [Hheap Hout].
  destruct (get_offer_ids_loop W fuel "" [] s) as [[pl|e|] s1]; [|done..].
  simpl in Hheap, Hout. intros [= <- <-]. simpl. rewrite Hheap.
  split; [done|]. split; [by eexists | done].
Qed.

Lemma get_offer_ids_fresh_list_witness :
  1%nat = length (heap (holding ["stale"])) /\
  (exists ids,
      heap {| heap := [["stale"]; ["0"; "1"; "2"]];
              sent := [ListProducts ""; ListProducts "page-1"];
              listed := 2%nat; stdout := [] |} = heap (holding ["stale"]) ++ [ids]) /\
  stdout {| heap := [["stale"]; ["0"; "1"; "2"]];
            sent := [ListProducts ""; ListProducts "page-1"];
            listed := 2%nat; stdout := [] |} = stdout (holding ["stale"]).
Proof.
  apply (get_offer_ids_fresh_list world_small 2%nat (holding ["stale"])).
  vm_compute. reflexivity.
Defined.


(** ** Posting batches *)

Lemma logged_nil (s : state) : logged [] s = s.
Proof. destruct s. unfold logged. simpl. by rewrite app_nil_r. Qed.

Lemma logged_logged (log log' : list request) (s : state) :
  logged log' (logged log s) = logged (log ++ log') s.
Proof. unfold logged. simpl. by rewrite app_assoc. Qed.

(** Posting batches one after the other, for either import endpoint: all of
    them when no request is refused, and up to the first refused one
    otherwise. *)
Lemma post_all_run {A} (W : world) (mk : A -> request) (batches : list A) :
  forall s : state,
    Forall (fun b => import_api W (mk b) = inr ()) batches ->
    for_each batches
      (fun _ b => let* _ := log (mk b) in lift (import_api W (mk b))) () s =
    (Ok (), logged (map mk batches) s).
Proof.
  induction batches as [|b batches IH]; intros s Hok; simpl.
  - by rewrite logged_nil.
  - apply Forall_cons in Hok as [Hb Hok].
    unfold bind at 1. unfold bind at 1. unfold log at 1. rewrite Hb. simpl.
    rewrite IH by done. unfold logged. simpl. by rewrite <- app_assoc.
Qed.

Lemma post_all_stops {A} (W : world) (mk : A -> request)
    (before after : list A) (b : A) (e : exn) (s : state) :
  Forall (fun b => import_api W (mk b) = inr ()) before ->
  import_api W (mk b) = inl e ->
  for_each (before ++ b :: after)
    (fun _ b => let* _ := log (mk b) in lift (import_api W (mk b))) () s =
  (Raise e, logged (map mk (before ++ [b])) s).
Proof.
  intros Hok Hb. rewrite for_each_app. unfold bind at 1.
  rewrite post_all_run by done. simpl.
  unfold bind at 1. unfold bind at 1. unfold log at 1. rewrite Hb. simpl.
  unfold logged. simpl. by rewrite map_app, app_assoc.
Qed.

Lemma divide_chunks {A} (lst : list A) (n : Z) :
  0 < n ->
  exists chunks,
    divide lst n = inr chunks /\
    concat chunks = lst /\
    Forall (fun c => (1 <= length c <= Z.to_nat n)%nat) chunks.
Proof.
  intros Hn. eexists. split; [by apply divide_pos|].
  set (n' := Z.to_nat n). assert (Hn' : (0 < n')%nat) by lia.
  destruct (chunk_count_bounds (length lst) n' Hn') as [Hup Hlow].
  split; [rewrite concat_chunks; by apply take_ge|].
  apply Forall_forall. intros c Hc.
  change (map ?f ?l) with (f <$> l) in Hc.
  apply list_elem_of_fmap in Hc as (k & -> & Hk).
  apply elem_of_seq in Hk as [_ Hk]. simpl in Hk.
  rewrite length_take, length_drop.
  assert (Hlen : (0 < length lst)%nat).
  { destruct (length lst) eqn:E; [|lia]. rewrite Nat.div_small in Hk; lia. }
  destruct (Hlow Hlen) as [_ Hlast]. nia.
Qed.

(** ** The entry points, continued *)

Lemma filter_nonzero (stocks : list StockRec) :
  List.filter (fun r => negb (stock r =? 0)) stocks = filter (fun r => stock r <> 0) stocks.
Proof.
  induction stocks as [|r stocks IH]; [done|].
  simpl. rewrite filter_cons, IH.
  destruct (Z.eqb_spec (stock r) 0) as [Hz|Hz]; simpl.
  - rewrite decide_False; [done | tauto].
  - by rewrite decide_True.
Qed.

(** X16.  When the catalog is listed, the records are built and no import
    request is refused, [upload_stocks] posts the records in batches of at
    most 100, in order and without gap or repetition, and returns the records
    together with those among them whose stock is not zero. *)
Theorem upload_stocks_posts_all
    (W : world) (fuel : nat) (wr : list watch) (l : loc) (s s1 : state)
    (stocks : list StockRec) :
  get_offer_ids W fuel initial = (Ok l, s) ->
  create_stocks W wr l s = (Ok stocks, s1) ->
  (forall batch, import_api W (ImportStocks batch) = inr ()) ->
  exists chunks,
    upload_stocks W fuel wr initial =
      (Ok (filter (fun r => stock r <> 0) stocks, stocks),
       logged (map ImportStocks chunks) s1) /\
    concat chunks = stocks /\
    Forall (fun c => (1 <= length c <= 100)%nat) chunks.
Proof.
  intros Hids Hstocks Hok.
  destruct (divide_chunks stocks 100 ltac:(lia)) as (chunks & Hdiv & Hcat & Hlen).
  exists chunks. split; [|done].
  unfold upload_stocks. unfold bind at 1. rewrite Hids.
  unfold bind at 1. rewrite Hstocks.
  unfold bind at 1. rewrite Hdiv. unfold lift at 1, ret at 1.
  unfold bind at 1. unfold update_stocks.
  rewrite (post_all_run W ImportStocks chunks) by (apply Forall_forall; intros; apply Hok).
  unfold ret. by rewrite filter_nonzero.
Qed.

Lemma upload_stocks_posts_all_witness :
  exists chunks,
    upload_stocks world_small 2
      [mk_watch "0" ">10" "5'990.00 руб."; mk_watch "7" "2" "10.00"] initial =
      (Ok (filter (fun r => stock r <> 0)
             [{| offer_id := "0"; stock := 100 |}; {| offer_id := "1"; stock := 0 |};
              {| offer_id := "2"; stock := 0 |}],
           [{| offer_id := "0"; stock := 100 |}; {| offer_id := "1"; stock := 0 |};
            {| offer_id := "2"; stock := 0 |}]),
       logged (map ImportStocks chunks) (set_list 0%nat ["1"; "2"] listed_small)) /\
    concat chunks =
      [{| offer_id := "0"; stock := 100 |}; {| offer_id := "1"; stock := 0 |};
       {| offer_id := "2"; stock := 0 |}] /\
    Forall (fun c => (1 <= length c <= 100)%nat) chunks.
Proof.
  apply (upload_stocks_posts_all world_small 2
           [mk_watch "0" ">10" "5'990.00 руб."; mk_watch "7" "2" "10.00"] 0%nat listed_small).
  - reflexivity.
  - reflexivity.
  - intros batch. reflexivity.
Defined.

(** X17.  When the catalog is listed, the price records are built and no
    import request is refused, [upload_prices] posts the records in batches
    of at most 1000, in order and without gap or repetition, and returns
    them. *)
Theorem upload_prices_posts_all
    (W : world) (fuel : nat) (wr : list watch) (l : loc) (s s1 : state)
    (prices : list PriceRec) :
  get_offer_ids W fuel initial = (Ok l, s) ->
  create_prices wr l s = (Ok prices, s1) ->
  (forall batch, import_api W (ImportPrices batch) = inr ()) ->
  exists chunks,
    upload_prices W fuel wr initial =
      (Ok prices, logged (map ImportPrices chunks) s) /\
    concat chunks = prices /\
    Forall (fun c => (1 <= length c <= 1000)%nat) chunks.
Proof.
  intros Hids Hprices Hok.
  assert (s1 = s) as ->.
  { pose proof (create_prices_rows_frame l wr [] s) as Hframe.
    unfold create_prices in Hprices. by rewrite Hprices in Hframe. }
  destruct (divide_chunks prices 1000 ltac:(lia)) as (chunks & Hdiv & Hcat & Hlen).
  exists chunks. split; [|done].
  unfold upload_prices. unfold bind at 1. rewrite Hids.
  unfold bind at 1. rewrite Hprices.
  unfold bind at 1. rewrite Hdiv. unfold lift at 1, ret at 1.
  unfold bind at 1. unfold update_price.
  by rewrite (post_all_run W ImportPrices chunks) by (apply Forall_forall; intros; apply Hok).
Qed.

Lemma upload_prices_posts_all_witness :
  exists chunks,
    upload_prices world_small 2
      [mk_watch "0" ">10" "5'990.00 руб."; mk_watch "7" "2" "10.00"] initial =
      (Ok [price_record (mk_watch "0" ">10" "5'990.00 руб.") "5990"],
       logged (map ImportPrices chunks) listed_small) /\
    concat chunks = [price_record (mk_watch "0" ">10" "5'990.00 руб.") "5990"] /\
    Forall (fun c => (1 <= length c <= 1000)%nat) chunks.
Proof.
  apply (upload_prices_posts_all world_small 2
           [mk_watch "0" ">10" "5'990.00 руб."; mk_watch "7" "2" "10.00"] 0%nat
           listed_small listed_small).
  - reflexivity.
  - reflexivity.
  - intros batch. reflexivity.
Defined.

(** X18.  In [main], run with both credentials set, the first refused stock
    batch ends the run: the batches before it and the refused one have been
    posted, none after it and no price batch is, the message of the exception
    is printed, and [main] returns normally. *)
Theorem main_stops_at_refused_batch
    (W : world) (fuel : nat) (wr : list watch) (l : loc) (s s1 : state)
    (stocks : list StockRec) (before after : list (list StockRec))
    (batch : list StockRec) (e : exn) :
  credentials W ->
  get_offer_ids W fuel initial = (Ok l, s) ->
  download_api W = inr wr ->
  create_stocks W wr l s = (Ok stocks, s1) ->
  divide stocks 100 = inr (before ++ batch :: after) ->
  Forall (fun b => import_api W (ImportStocks b) = inr ()) before ->
  import_api W (ImportStocks batch) = inl e ->
  main W fuel initial =
    (Ok (), printed [message_of e] (logged (map ImportStocks (before ++ [batch])) s1)).
Proof.
  intros Hcred Hids Hdl Hstocks Hdiv Hok Hbad.
  rewrite (main_with_credentials W fuel initial Hcred).
  assert (Htry : main_try W fuel initial =
                 (Raise e, logged (map ImportStocks (before ++ [batch])) s1)).
  { unfold main_try. unfold bind at 1. rewrite Hids.
    unfold bind at 1. unfold download_stock. rewrite Hdl.
    unfold lift at 1. unfold ret at 1.
    unfold bind at 1. rewrite Hstocks.
    unfold bind at 1. rewrite Hdiv. unfold lift at 1, ret at 1.
    unfold bind at 1. unfold update_stocks.
    by rewrite (post_all_stops W ImportStocks before after batch e s1 Hok Hbad). }
  by rewrite Htry.
Qed.

Lemma main_stops_at_refused_batch_witness :
  main world_refusing 2 initial =
    (Ok (),
     printed [message_of ReadTimeout]
       (logged (map ImportStocks
                  ([] ++ [[{| offer_id := "0"; stock := 100 |}; {| offer_id := "1"; stock := 0 |};
                           {| offer_id := "2"; stock := 0 |}]]))
          (set_list 0%nat ["1"; "2"] listed_small))).
Proof.
  apply (main_stops_at_refused_batch world_refusing 2
           [mk_watch "0" ">10" "5'990.00 руб."; mk_watch "7" "2" "10.00"] 0%nat listed_small
           (set_list 0%nat ["1"; "2"] listed_small)
           [{| offer_id := "0"; stock := 100 |}; {| offer_id := "1"; stock := 0 |};
            {| offer_id := "2"; stock := 0 |}] [] []).
  - split; by eexists.
  - reflexivity.
  - reflexivity.
  - reflexivity.
  - reflexivity.
  - constructor.
  - reflexivity.
Defined.

(** X19.  When the listing or the download fails, [main], run with both
    credentials set, posts no import request at all: it prints the message of
    the exception and returns normally. *)
Theorem main_fails_before_upload (W : world) (fuel : nat) (s : state) (e : exn) :
  credentials W ->
  get_offer_ids W fuel initial = (Raise e, s) \/
  (exists l, get_offer_ids W fuel initial = (Ok l, s) /\ download_api W = inl e) ->
  main W fuel initial = (Ok (), printed [message_of e] s).
Proof.
  intros Hcred Hfail. rewrite (main_with_credentials W fuel initial Hcred).
  assert (Htry : main_try W fuel initial = (Raise e, s)).
  { destruct Hfail as [Hids|(l & Hids & Hdl)]; unfold main_try; unfold bind at 1;
      rewrite Hids; [done|].
    unfold bind at 1. unfold download_stock. by rewrite Hdl. }
  by rewrite Htry.
Qed.

Lemma main_fails_before_upload_witness :
  main world_no_download 2 initial =
    (Ok (), printed [message_of ConnectionError] listed_small).
Proof.
  apply (main_fails_before_upload world_no_download 2 listed_small ConnectionError).
  { split; by eexists. }
  right. exists 0%nat. split; [vm_compute; reflexivity | reflexivity].
Defined.

Lemma silent_ret {A} (a : A) : silent (ret a).
Proof. done. Qed.

Lemma silent_lift {A} (r : exn + A) : silent (lift r).
Proof. by destruct r. Qed.

Lemma silent_bind {A B} (m : M A) (k : A -> M B) :
  silent m -> (forall a, silent (k a)) -> silent (bind m k).
Proof.
  intros Hm Hk s. unfold bind. specialize (Hm s).
  destruct (m s) as [[a|e|] s1]; simpl in *; [|done..].
  by rewrite Hk.
Qed.

Lemma silent_for_each {A B} (l : list A) (body : B -> A -> M B) :
  (forall acc x, silent (body acc x)) -> forall acc, silent (for_each l body acc).
Proof.
  intros Hbody. induction l as [|x l IH]; intros acc; simpl; [apply silent_ret|].
  apply silent_bind; [apply Hbody | apply IH].
Qed.

Lemma silent_get_offer_ids (W : world) (fuel : nat) : silent (get_offer_ids W fuel).
Proof.
  intros s. rewrite get_offer_ids_run.
  destruct (get_offer_ids_loop_frame W fuel "" [] s) as [_ Hout].
  by destruct (get_offer_ids_loop W fuel "" [] s) as [[pl|e|] s1].
Qed.

Lemma silent_update_stocks (W : world) (stocks : list StockRec) :
  silent (update_stocks W stocks).
Proof. apply silent_bind; [done | intros; apply silent_lift]. Qed.

Lemma silent_update_price (W : world) (prices : list PriceRec) :
  silent (update_price W prices).
Proof. apply silent_bind; [done | intros; apply silent_lift]. Qed.

Lemma silent_create_stocks (W : world) (wr : list watch) (l : loc) :
  silent (create_stocks W wr l).
Proof.
  apply silent_bind.
  - apply silent_for_each. intros acc w. apply silent_bind; [done|]. intros ids.
    destruct (py_in _ ids); [|done].
    apply silent_bind.
    + destruct (String.eqb _ ">10"); [done|]. destruct (String.eqb _ "1"); [done|].
      apply silent_lift.
    + intros z. apply silent_bind; [|done].
      apply silent_bind; [done|]. intros lst. by destruct (remove_first _ lst).
  - intros stocks. apply silent_bind; [done|]. intros ids. by apply silent_for_each.
Qed.

Lemma silent_create_prices (wr : list watch) (l : loc) : silent (create_prices wr l).
Proof.
  apply silent_for_each. intros acc w. apply silent_bind; [done|]. intros ids.
  destruct (py_in _ ids); [|done].
  apply silent_bind; [apply silent_lift | done].
Qed.

Lemma silent_main_try (W : world) (fuel : nat) : silent (main_try W fuel).
Proof.
  apply silent_bind; [apply silent_get_offer_ids|]. intros offer_ids.
  apply silent_bind; [apply silent_lift|]. intros wr.
  apply silent_bind; [apply silent_create_stocks|]. intros stocks.
  apply silent_bind; [apply silent_lift|]. intros chunks.
  apply silent_bind;
    [apply silent_for_each; intros; apply silent_update_stocks|]. intros _.
  apply silent_bind; [apply silent_create_prices|]. intros prices.
  apply silent_bind; [apply silent_lift|]. intros chunks'.
  apply silent_for_each; intros; apply silent_update_price.
Qed.

(** X20.  What leaves [main].  With both credentials set no exception does:
    the [try] block prints nothing itself; when it raises, [main] prints the
    one message of that exception after it and returns normally; when it
    completes, [main] returns normally and has printed nothing; while it is
    still running, so is [main].  With a credential missing, [main] raises
    [EnvError] before its [try] block, having requested and printed
    nothing. *)
Theorem main_reports_failures (W : world) (fuel : nat) (s : state) :
  (credentials W ->
   match main_try W fuel s with
   | (Ok _, s1) => main W fuel s = (Ok (), s1) /\ stdout s1 = stdout s
   | (Raise e, s1) =>
       main W fuel s = (Ok (), printed [message_of e] s1) /\ stdout s1 = stdout s
   | (Diverge, s1) => main W fuel s = (Diverge, s1) /\ stdout s1 = stdout s
   end) /\
  (~ credentials W -> main W fuel s = (Raise EnvError, s)).
Proof.
  split; [|apply main_without_credentials].
  intros Hcred. rewrite (main_with_credentials W fuel s Hcred).
  pose proof (silent_main_try W fuel s) as Hout.
  by destruct (main_try W fuel s) as [[[]|e|] s1].
Qed.

Lemma main_reports_failures_witness :
  credentials world_refusing /\
  ~ credentials world_no_credentials /\
  main world_refusing 2 initial =
    (Ok (),
     printed [MsgTimeout]
       (logged [ImportStocks [{| offer_id := "0"; stock := 100 |};
                              {| offer_id := "1"; stock := 0 |};
                              {| offer_id := "2"; stock := 0 |}]]
          (set_list 0%nat ["1"; "2"] listed_small))) /\
  main world_no_credentials 2 initial = (Raise EnvError, initial).
Proof.
  assert (Hset : credentials world_refusing) by (split; by eexists).
  assert (Hunset : ~ credentials world_no_credentials)
    by (intros [_ [client Hclient]]; discriminate Hclient).
  split; [exact Hset|]. split; [exact Hunset|].
  destruct (main_reports_failures world_refusing 2 initial) as [Hwith _].
  destruct (main_reports_failures world_no_credentials 2 initial) as [_ Hwithout].
  split; [exact (proj1 (Hwith Hset)) | exact (Hwithout Hunset)].
Defined.

(** ** A complete run of [main] *)

(** X22.  A run of [main] with both credentials set in which nothing fails,
    on a catalog that lists no identifier twice: the requests it posts after the listing are exactly the
    stock records in batches of at most 100, in order and without gap; it
    posts no price batch, prints nothing and returns normally. *)
Theorem main_complete_run
    (W : world) (fuel : nat) (wr : list watch) (l : loc) (s s1 : state)
    (ids : list string) (stocks : list StockRec) :
  credentials W ->
  get_offer_ids W fuel initial = (Ok l, s) ->
  heap s !! l = Some ids ->
  NoDup ids ->
  download_api W = inr wr ->
  create_stocks W wr l s = (Ok stocks, s1) ->
  (forall batch, import_api W (ImportStocks batch) = inr ()) ->
  exists chunks,
    main W fuel initial = (Ok (), logged (map ImportStocks chunks) s1) /\
    concat chunks = stocks /\
    Forall (fun c => (1 <= length c <= 100)%nat) chunks.
Proof.
  intros Hcred Hids Hl Hnd Hdl Hstocks Hok.
  destruct (divide_chunks stocks 100 ltac:(lia)) as (chunks & Hdiv & Hcat & Hlen).
  exists chunks. split; [|done].
  rewrite (main_with_credentials W fuel initial Hcred).
  unfold main_try. unfold bind at 1. rewrite Hids.
  unfold bind at 1. unfold download_stock. rewrite Hdl.
  unfold lift at 1. unfold ret at 1.
  unfold bind at 1. rewrite Hstocks.
  unfold bind at 1. rewrite Hdiv. unfold lift at 1, ret at 1.
  unfold bind at 1. unfold update_stocks.
  rewrite (post_all_run W ImportStocks chunks) by (apply Forall_forall; intros; apply Hok).
  unfold bind at 1. unfold create_prices.
  rewrite create_prices_rows_unknown
    by (simpl; by eapply create_stocks_leaves_none_known).
  unfold bind at 1. rewrite divide_nil by lia. done.
Qed.

Lemma main_complete_run_witness :
  exists chunks,
    main world_small 2 initial =
      (Ok (), logged (map ImportStocks chunks) (set_list 0%nat ["1"; "2"] listed_small)) /\
    concat chunks =
      [{| offer_id := "0"; stock := 100 |}; {| offer_id := "1"; stock := 0 |};
       {| offer_id := "2"; stock := 0 |}] /\
    Forall (fun c => (1 <= length c <= 100)%nat) chunks.
Proof.
  apply (main_complete_run world_small 2
           [mk_watch "0" ">10" "5'990.00 руб."; mk_watch "7" "2" "10.00"] 0%nat listed_small
           (set_list 0%nat ["1"; "2"] listed_small) ["0"; "1"; "2"]).
  - split; by eexists.
  - reflexivity.
  - reflexivity.
  - apply (bool_decide_unpack _). vm_compute. exact I.
  - reflexivity.
  - reflexivity.
  - intros batch. reflexivity.
Defined.
